(** * The host-arbitration relay of the multi-user product viewer

    A shallow embedding of the server (the Express/socket.io script holding
    [hostSocketId], [pendingRequests] and [hostUploadBuffers]) together with
    the properties of the host-authority protocol.

    Every socket handler of the server is a computation over the three
    globals that may emit events; the handlers are written in a small
    state-and-output monad so that they read like the JavaScript. What the
    runtime contributes (timers created by [setTimeout], identifiers drawn
    by [uuidv4], the rooms an emission reaches, property lookup on object
    literals) is modelled next to the code that uses it. *)

From Stdlib Require Import String Ascii List ZArith NArith Lia.
From stdpp Require Import base option list gmap strings pretty.

Set Warnings "-register-all".

(** ** JavaScript values *)

(** The values the server stores in its globals and passes through
    untouched: client payloads, the host identifier ([null], a socket id, or
    [undefined] when read from a missing field), and the members an object
    literal inherits from [Object.prototype]. *)
Inductive value : Type :=
  | VUndefined
  | VNull
  | VBool (b : bool)
  | VNum (n : Z)
  | VStr (s : string)
  | VArr (xs : list value)
  | VObj (fields : list (string * value))
  | VBuiltin (name : string).

(** [ToBoolean]: what [if (v)], [!v] and [v || w] test. *)
Definition truthy (v : value) : bool :=
  match v with
  | VUndefined | VNull => false
  | VBool b => b
  | VNum n => negb (n =? 0)%Z
  | VStr s => negb (bool_decide (s = ""))
  | VArr _ | VObj _ | VBuiltin _ => true
  end.

(** [id === v] for a string [id]. *)
Definition strict_eq (id : string) (v : value) : bool :=
  match v with
  | VStr s => bool_decide (id = s)
  | _ => false
  end.

(** ** Property lookup on an object literal

    [pendingRequests] and [hostUploadBuffers] are created as [{}], so
    [obj[key]] finds the object's own property first and the members of
    [Object.prototype] otherwise. The table lists those members with the
    [length] of each function; [__proto__] is an accessor that yields the
    prototype object itself, which has no [length]. *)
Definition object_prototype : list (string * option nat) :=
  [ ("constructor", Some 1); ("__defineGetter__", Some 2);
    ("__defineSetter__", Some 2); ("hasOwnProperty", Some 1);
    ("__lookupGetter__", Some 1); ("__lookupSetter__", Some 1);
    ("isPrototypeOf", Some 1); ("propertyIsEnumerable", Some 1);
    ("toString", Some 0); ("valueOf", Some 0); ("__proto__", None);
    ("toLocaleString", Some 0) ]%nat.

Definition inherited (key : string) : bool :=
  bool_decide (key ∈ object_prototype.*1).

Inductive property (A : Type) : Type :=
  | Own (a : A)
  | Inherited (name : string)
  | Missing.
Arguments Own {A} a.
Arguments Inherited {A} name.
Arguments Missing {A}.

Definition get_property {A} (own : option A) (key : string) : property A :=
  match own with
  | Some a => Own a
  | None => if inherited key then Inherited key else Missing
  end.

(** Own properties in insertion order (the order [for ... in] visits string
    keys that are not array indices). Assigning to an existing key keeps its
    place; [delete] removes the key. *)
Section OwnProperties.
Context {A : Type}.

Fixpoint own_get (key : string) (o : list (string * A)) : option A :=
  match o with
  | [] => None
  | (k, a) :: o' => if bool_decide (k = key) then Some a else own_get key o'
  end.

Fixpoint own_set (key : string) (a : A) (o : list (string * A))
  : list (string * A) :=
  match o with
  | [] => [(key, a)]
  | (k, b) :: o' =>
      if bool_decide (k = key) then (k, a) :: o'
      else (k, b) :: own_set key a o'
  end.

Definition own_delete (key : string) (o : list (string * A))
  : list (string * A) :=
  filter (λ p, p.1 ≠ key) o.
End OwnProperties.

(** The [length] of an inherited member, [undefined] ([None]) when it has
    none. *)
Definition builtin_length (key : string) : option nat :=
  mjoin (own_get key object_prototype).

(** ** Identifiers drawn by [uuidv4]

    [uuidv4()] takes sixteen random bytes, forces the version and variant
    bits, and prints the bytes in hexadecimal with dashes after bytes 4, 6,
    8 and 10. The random bytes are the argument [r]. *)
Definition hex_char (n : N) : ascii :=
  default "0"%char (list_ascii_of_string "0123456789abcdef" !! N.to_nat (n mod 16)).

Definition rnd_byte (r : N) (i : nat) : N :=
  N.land (N.shiftr r (8 * N.of_nat (15 - i))) 255.

Definition uuid_byte (r : N) (i : nat) : N :=
  let b := rnd_byte r i in
  if bool_decide (i = 6%nat) then N.lor (N.land b 15) 64
  else if bool_decide (i = 8%nat) then N.lor (N.land b 63) 128
  else b.

Definition uuid_group (r : N) (i : nat) : list ascii :=
  (if bool_decide (i ∈ [4; 6; 8; 10]%nat) then ["-"%char] else [])
  ++ [hex_char (uuid_byte r i / 16); hex_char (uuid_byte r i)].

Definition uuidv4 (r : N) : string :=
  string_of_list_ascii (concat (uuid_group r <$> seq 0 16)).

(** ** Emissions *)

(** Where socket.io sends an event: [io.emit] reaches every connected
    socket, [socket.broadcast.emit] every socket but the emitting one, and
    [io.to(room).emit] the sockets in [room]; a socket is in the room named
    by its own id and the server never joins another. *)
Inductive target : Type :=
  | ToAll
  | Broadcast (sender : string)
  | ToRoom (room : value).

Record emission : Type := Emit {
  em_target : target;
  em_event : string;
  em_payload : value
}.

Definition recipients (connections : list string) (t : target) : list string :=
  match t with
  | ToAll => connections
  | Broadcast sender => filter (λ c, c ≠ sender) connections
  | ToRoom (VStr room) => filter (λ c, c = room) connections
  | ToRoom _ => []
  end.

(** The events of [out] that connection [c] receives, in order. *)
Definition received (connections : list string) (c : string)
    (out : list emission) : list emission :=
  filter (λ e, c ∈ recipients connections (em_target e)) out.

(** ** Server state *)

(** A record of [pendingRequests]: [{ timeout, requester }]. *)
Record request : Type := Request {
  timeout : nat;
  requester : string
}.

(** A buffered upload: [{ url, name, id, sender }]. *)
Record part : Type := Part {
  url : string;
  name : string;
  id : string;
  sender : string
}.

Definition part_value (p : part) : value :=
  VObj [("url", VStr (url p)); ("name", VStr (name p));
        ("id", VStr (id p)); ("sender", VStr (sender p))].

(** A timer armed by [setTimeout]: its delay, the time it becomes due and
    the two variables its callback closes over. *)
Record timer : Type := Timer {
  delay : N;
  due : N;
  timer_socket : string;
  timer_request : string
}.

(** The three globals of the server, and the runtime's timers: the armed
    ones by handle, the next handle, and the clock in milliseconds. *)
Record state : Type := State {
  hostSocketId : value;
  pendingRequests : list (string * request);
  hostUploadBuffers : gmap string (list part);
  timers : gmap nat timer;
  nextTimer : nat;
  clock : N
}.

Definition initial : state :=
  {| hostSocketId := VNull; pendingRequests := []; hostUploadBuffers := ∅;
     timers := ∅; nextTimer := 0; clock := 0 |}.

Definition set_hostSocketId (v : value) (s : state) : state :=
  {| hostSocketId := v; pendingRequests := pendingRequests s;
     hostUploadBuffers := hostUploadBuffers s; timers := timers s;
     nextTimer := nextTimer s; clock := clock s |}.

Definition set_pendingRequests (p : list (string * request)) (s : state) : state :=
  {| hostSocketId := hostSocketId s; pendingRequests := p;
     hostUploadBuffers := hostUploadBuffers s; timers := timers s;
     nextTimer := nextTimer s; clock := clock s |}.

Definition set_hostUploadBuffers (b : gmap string (list part)) (s : state) : state :=
  {| hostSocketId := hostSocketId s; pendingRequests := pendingRequests s;
     hostUploadBuffers := b; timers := timers s;
     nextTimer := nextTimer s; clock := clock s |}.

Definition set_timers (t : gmap nat timer) (s : state) : state :=
  {| hostSocketId := hostSocketId s; pendingRequests := pendingRequests s;
     hostUploadBuffers := hostUploadBuffers s; timers := t;
     nextTimer := nextTimer s; clock := clock s |}.

Definition set_nextTimer (n : nat) (s : state) : state :=
  {| hostSocketId := hostSocketId s; pendingRequests := pendingRequests s;
     hostUploadBuffers := hostUploadBuffers s; timers := timers s;
     nextTimer := n; clock := clock s |}.

Definition set_clock (t : N) (s : state) : state :=
  {| hostSocketId := hostSocketId s; pendingRequests := pendingRequests s;
     hostUploadBuffers := hostUploadBuffers s; timers := timers s;
     nextTimer := nextTimer s; clock := t |}.

(** ** Handlers as computations *)

(** A handler reads and writes the state and emits events. *)
Definition handler (A : Type) : Type := state → A * state * list emission.

#[export] Instance handler_ret : MRet handler := λ A a s, (a, s, []).

#[export] Instance handler_bind : MBind handler := λ A B f m s,
  let '(a, s1, out1) := m s in
  let '(b, s2, out2) := f a s1 in
  (b, s2, out1 ++ out2).

Definition gets {A} (f : state → A) : handler A := λ s, (f s, s, []).
Definition modify (f : state → state) : handler unit := λ s, ((), f s, []).
Definition emit (t : target) (event : string) (payload : value) : handler unit :=
  λ s, ((), s, [Emit t event payload]).

Definition when (b : bool) (m : handler unit) : handler unit :=
  if b then m else mret ().

(** [setTimeout(callback, ms)], where the callback closes over [socket.id]
    and [requestId]: arms a timer under a new handle and returns the handle. *)
Definition setTimeout (socket request : string) (ms : N) : handler nat :=
  t ← gets nextTimer;
  now ← gets clock;
  modify (λ s, set_nextTimer (S t)
                 (set_timers (<[t := Timer ms (now + ms) socket request]> (timers s)) s));;
  mret t.

(** [clearTimeout(handle)]; the handle is [undefined] when it was read from
    something that has no [timeout] field, and then nothing happens. *)
Definition clearTimeout (handle : option nat) : handler unit :=
  match handle with
  | Some t => modify (λ s, set_timers (delete t (timers s)) s)
  | None => mret ()
  end.

(** [for (const reqId in pendingRequests) body]: the keys are those present
    when the loop starts, and a key deleted before its turn is skipped.
    The body receives the key and [pendingRequests[reqId]]. *)
Fixpoint for_keys (keys : list string) (body : string → request → handler unit)
    : handler unit :=
  match keys with
  | [] => mret ()
  | k :: keys' =>
      r ← gets (λ s, own_get k (pendingRequests s));
      match r with Some r => body k r | None => mret () end;;
      for_keys keys' body
  end.

Definition for_in_pendingRequests (body : string → request → handler unit)
    : handler unit :=
  keys ← gets (λ s, (pendingRequests s).*1);
  for_keys keys body.

Definition delete_pending (key : string) : handler unit :=
  modify (λ s, set_pendingRequests (own_delete key (pendingRequests s)) s).

Definition host_changed (v : value) : value := VObj [("hostSocketId", v)].

(** ** The socket handlers

    One definition per [socket.on(...)] of the server, taking [socket.id]
    as [socket]. Logging is left out. *)

Definition register_host (socket : string) : handler unit :=
  modify (set_hostSocketId (VStr socket));;
  h ← gets hostSocketId;
  emit ToAll "host-changed" (host_changed h).

(** The callback [request_host] hands to [setTimeout]. *)
Definition timeout_callback (socket requestId : string) : handler unit :=
  modify (set_hostSocketId (VStr socket));;
  h ← gets hostSocketId;
  emit ToAll "host-changed" (host_changed h);;
  delete_pending requestId.

Definition request_host (socket : string) (r : N) : handler unit :=
  h ← gets hostSocketId;
  if negb (truthy h) then
    modify (set_hostSocketId (VStr socket));;
    h ← gets hostSocketId;
    emit ToAll "host-changed" (host_changed h)
  else if strict_eq socket h then
    mret ()
  else
    let requestId := uuidv4 r in
    t ← setTimeout socket requestId 30000;
    modify (λ s, set_pendingRequests
                   (own_set requestId (Request t socket) (pendingRequests s)) s);;
    h ← gets hostSocketId;
    emit (ToRoom h) "host-transfer-request"
         (VObj [("requestId", VStr requestId); ("requester", VStr socket)]).

(** [if (pendingRequests[requestId])]: a record or an inherited member is
    truthy, a missing property is [undefined]. *)
Definition present {A} (p : property A) : bool :=
  match p with
  | Own _ | Inherited _ => true
  | Missing => false
  end.

(** [const { timeout, requester } = pendingRequests[requestId]]: the two
    fields of a record; an inherited member has neither. *)
Definition timeout_of (p : property request) : option nat :=
  match p with
  | Own r => Some (timeout r)
  | _ => None
  end.

Definition requester_of (p : property request) : value :=
  match p with
  | Own r => VStr (requester r)
  | _ => VUndefined
  end.

Definition release_host (requestId : string) : handler unit :=
  p ← gets (λ s, get_property (own_get requestId (pendingRequests s)) requestId);
  when (present p) (
    clearTimeout (timeout_of p);;
    modify (set_hostSocketId (requester_of p));;
    h ← gets hostSocketId;
    emit ToAll "host-changed" (host_changed h);;
    delete_pending requestId).

Definition deny_host (requestId : string) : handler unit :=
  p ← gets (λ s, get_property (own_get requestId (pendingRequests s)) requestId);
  when (present p) (
    clearTimeout (timeout_of p);;
    emit (ToRoom (requester_of p)) "transfer-denied"
         (VObj [("requestId", VStr requestId)]);;
    delete_pending requestId).

Definition cancel_host_request (socket : string) : handler unit :=
  for_in_pendingRequests (λ reqId r,
    when (bool_decide (requester r = socket)) (
      clearTimeout (Some (timeout r));;
      delete_pending reqId;;
      h ← gets hostSocketId;
      when (truthy h) (
        emit (ToRoom h) "host-request-cancelled"
             (VObj [("requestId", VStr reqId)])))).

Definition give_up_host (socket : string) : handler unit :=
  h ← gets hostSocketId;
  when (strict_eq socket h) (
    modify (set_hostSocketId VNull);;
    emit ToAll "host-changed" (host_changed VNull)).

Definition model_transform (socket : string) (modelState : value) : handler unit :=
  h ← gets hostSocketId;
  when (strict_eq socket h) (emit (Broadcast socket) "model-transform" modelState).

Definition camera_update (socket : string) (cameraState : value) : handler unit :=
  h ← gets hostSocketId;
  when (strict_eq socket h) (emit (Broadcast socket) "camera-update" cameraState).

Definition reset_all (socket : string) (resetAll : value) : handler unit :=
  h ← gets hostSocketId;
  when (strict_eq socket h) (emit (Broadcast socket) "reset-all" resetAll).

(** [hostUploadBuffers[uploaderId] || []]: the array stored for the
    uploader, an inherited member, or a new empty array. *)
Inductive parts_buffer : Type :=
  | PartsArray (parts : list part)
  | PartsBuiltin (name : string).

Definition or_empty (p : property (list part)) : parts_buffer :=
  match p with
  | Own parts => PartsArray parts
  | Inherited name => PartsBuiltin name
  | Missing => PartsArray []
  end.

(** [partsBuffer.length > 0]; comparing [undefined] with [0] is false. *)
Definition has_parts (b : parts_buffer) : bool :=
  match b with
  | PartsArray parts => bool_decide (0 < length parts)
  | PartsBuiltin name =>
      match builtin_length name with
      | Some n => bool_decide (0 < n)
      | None => false
      end
  end.

Definition parts_value (b : parts_buffer) : value :=
  match b with
  | PartsArray parts => VArr (part_value <$> parts)
  | PartsBuiltin name => VBuiltin name
  end.

Definition product_upload_complete (socket : string) : handler unit :=
  let uploaderId := socket in
  partsBuffer ← gets (λ s,
    or_empty (get_property (hostUploadBuffers s !! uploaderId) uploaderId));
  when (has_parts partsBuffer) (
    emit ToAll "product-upload-complete"
         (VObj [("parts", parts_value partsBuffer); ("sender", VStr uploaderId)]);;
    modify (λ s, set_hostUploadBuffers (<[uploaderId := []]> (hostUploadBuffers s)) s)).

Definition host_pointer_toggle (socket : string) (data : value) : handler unit :=
  emit (Broadcast socket) "host-pointer-toggle" data.

Definition host_pointer_update (socket : string) (data : value) : handler unit :=
  emit (Broadcast socket) "host-pointer-update" data.

Definition disconnect (socket : string) : handler unit :=
  h ← gets hostSocketId;
  when (strict_eq socket h) (
    modify (set_hostSocketId VNull);;
    emit ToAll "host-changed" (host_changed VNull));;
  for_in_pendingRequests (λ reqId r,
    when (bool_decide (requester r = socket)) (
      clearTimeout (Some (timeout r));;
      delete_pending reqId)).

(** [parts] is the field [data.parts] of the message. *)
Definition browse_selection (socket : string) (parts : value) : handler unit :=
  h ← gets hostSocketId;
  when (strict_eq socket h) (
    emit ToAll "product-upload-complete"
         (VObj [("parts", parts); ("sender", VStr socket)])).

(** ** The upload endpoint *)

(** What [POST /upload] reads from a request: the uploaded file's original
    name (multer stores the file under that name, so it is also
    [req.file.filename]), [process.env.PUBLIC_URL], the protocol, the
    [Host] header, and the two custom headers. A missing header or variable
    is [None]. *)
Record upload_request : Type := UploadRequest {
  file : option string;
  public_url : option string;
  protocol : string;
  host : option string;
  x_socket_id : option string;
  x_uploader_role : option string
}.

(** The answer: a JSON body with a status, or the error Express reports
    when the handler throws. *)
Inductive response : Type :=
  | Json (status : nat) (body : value)
  | Thrown (error : string).

(** A string or [undefined], as a value and inside a template literal. *)
Definition header_value (h : option string) : value :=
  match h with
  | Some s => VStr s
  | None => VUndefined
  end.

Definition interpolate (h : option string) : string := default "undefined" h.

(** [process.env.PUBLIC_URL || `${req.protocol}://${req.get('host')}`]. *)
Definition baseUrl (req : upload_request) : string :=
  if truthy (header_value (public_url req)) then interpolate (public_url req)
  else protocol req +:+ "://" +:+ interpolate (host req).

Definition fileUrl (req : upload_request) (filename : string) : string :=
  baseUrl req +:+ "/uploads/" +:+ filename.

(** [req.headers['x-uploader-role'] || 'viewer']. *)
Definition uploaderRole (req : upload_request) : string :=
  if truthy (header_value (x_uploader_role req))
  then interpolate (x_uploader_role req) else "viewer".

(** [hostUploadBuffers[uploaderId].push(entry)], after the buffer was
    created when it was missing. *)
Definition push_part (uploaderId : string) (entry : part) (s : state) : state :=
  set_hostUploadBuffers
    (<[uploaderId := default [] (hostUploadBuffers s !! uploaderId) ++ [entry]]>
       (hostUploadBuffers s)) s.

Definition upload (req : upload_request) (r : N) : handler response :=
  match file req with
  | None => mret (Json 400 (VObj [("error", VStr "No file uploaded")]))
  | Some originalname =>
      let ok := Json 200 (VObj [("url", VStr (fileUrl req originalname));
                                ("name", VStr originalname)]) in
      match x_socket_id req with
      | Some uploaderId =>
          if bool_decide (uploaderRole req = "host") && truthy (VStr uploaderId) then
            p ← gets (λ s, get_property (hostUploadBuffers s !! uploaderId) uploaderId);
            match p with
            | Inherited _ =>
                (* truthy, so no array is stored, and it has no [push] *)
                mret (Thrown "TypeError: hostUploadBuffers[uploaderId].push is not a function")
            | _ =>
                modify (push_part uploaderId
                          (Part (fileUrl req originalname) originalname
                                (uuidv4 r) uploaderId));;
                mret ok
            end
          else mret ok
      | None => mret ok
      end
  end.

(** ** Events and runs *)

(** The messages a socket sends, with what the handler reads from them:
    release-host and deny-host carry [data.requestId], browse-selection
    carries [data.parts], the relays carry their one argument. The
    identifiers are strings; a message without its [data] object is outside
    the model. [RequestHost] carries the random bytes its [uuidv4] draws. *)
Inductive message : Type :=
  | RegisterHost
  | RequestHost (r : N)
  | ReleaseHost (requestId : string)
  | DenyHost (requestId : string)
  | CancelHostRequest
  | GiveUpHost
  | ModelTransform (modelState : value)
  | CameraUpdate (cameraState : value)
  | ResetAll (resetAll : value)
  | ProductUploadComplete
  | HostPointerToggle (data : value)
  | HostPointerUpdate (data : value)
  | Disconnect
  | BrowseSelection (parts : value).

Definition on (socket : string) (m : message) : handler unit :=
  match m with
  | RegisterHost => register_host socket
  | RequestHost r => request_host socket r
  | ReleaseHost requestId => release_host requestId
  | DenyHost requestId => deny_host requestId
  | CancelHostRequest => cancel_host_request socket
  | GiveUpHost => give_up_host socket
  | ModelTransform v => model_transform socket v
  | CameraUpdate v => camera_update socket v
  | ResetAll v => reset_all socket v
  | ProductUploadComplete => product_upload_complete socket
  | HostPointerToggle v => host_pointer_toggle socket v
  | HostPointerUpdate v => host_pointer_update socket v
  | Disconnect => disconnect socket
  | BrowseSelection parts => browse_selection socket parts
  end.

(** The runtime invokes the callback of timer [t]: only an armed timer
    whose delay has elapsed runs, and it runs once. *)
Definition fire (t : nat) : handler unit :=
  armed ← gets (λ s, timers s !! t);
  now ← gets clock;
  match armed with
  | Some tm =>
      when (bool_decide (due tm ≤ now)%N) (
        modify (λ s, set_timers (delete t (timers s)) s);;
        timeout_callback (timer_socket tm) (timer_request tm))
  | None => mret ()
  end.

(** What the event loop dispatches: a message from a socket, an upload
    (with the random bytes its [uuidv4] draws), a timer, or time passing. *)
Inductive event : Type :=
  | Socket (socket : string) (m : message)
  | Upload (req : upload_request) (r : N)
  | TimerFire (t : nat)
  | Elapse (dt : N).

Definition step (e : event) : handler unit :=
  match e with
  | Socket socket m => on socket m
  | Upload req r => upload req r;; mret ()
  | TimerFire t => fire t
  | Elapse dt => modify (λ s, set_clock (clock s + dt)%N s)
  end.

Fixpoint run (es : list event) : handler unit :=
  match es with
  | [] => mret ()
  | e :: es' => step e;; run es'
  end.

(** The state a computation leaves and the events it emits. *)
Definition after {A} (m : handler A) (s : state) : state := (m s).1.2.
Definition emitted {A} (m : handler A) (s : state) : list emission := (m s).2.
Definition result {A} (m : handler A) (s : state) : A := (m s).1.1.

(** ** Vocabulary of the properties *)

(** The three relays that check the sender, and the two that do not. *)
Inductive gated_kind : Type := model_transform_kind | camera_update_kind | reset_all_kind.

Definition gated_message (k : gated_kind) (payload : value) : message :=
  match k with
  | model_transform_kind => ModelTransform payload
  | camera_update_kind => CameraUpdate payload
  | reset_all_kind => ResetAll payload
  end.

Definition gated_event (k : gated_kind) : string :=
  match k with
  | model_transform_kind => "model-transform"
  | camera_update_kind => "camera-update"
  | reset_all_kind => "reset-all"
  end.

Inductive pointer_kind : Type := pointer_toggle_kind | pointer_update_kind.

Definition pointer_message (k : pointer_kind) (payload : value) : message :=
  match k with
  | pointer_toggle_kind => HostPointerToggle payload
  | pointer_update_kind => HostPointerUpdate payload
  end.

Definition pointer_event (k : pointer_kind) : string :=
  match k with
  | pointer_toggle_kind => "host-pointer-toggle"
  | pointer_update_kind => "host-pointer-update"
  end.

(** [c] is the host: the test [socket.id === hostSocketId]. *)
Definition is_host (s : state) (c : string) : Prop := strict_eq c (hostSocketId s) = true.

#[export] Instance is_host_dec s c : Decision (is_host s c).
Proof. unfold is_host. apply _. Defined.

(** An upload of [filename] announcing socket [c] and [role]. *)
Definition example_upload (filename c role : string) : upload_request :=
  {| file := Some filename; public_url := None; protocol := "http";
     host := Some "viewer.example:3000"; x_socket_id := Some c;
     x_uploader_role := Some role |}.

(** An upload that is accepted and buffered for [H]: it carries a file,
    names [H] in [x-socket-id] and claims the role host. *)
Definition host_upload_for (H : string) (req : upload_request) : Prop :=
  is_Some (file req) ∧ x_socket_id req = Some H ∧ x_uploader_role req = Some "host".

(** The entry such an upload appends, [r] being the bytes [uuidv4] draws. *)
Definition upload_entry (req : upload_request) (r : N) : part :=
  let originalname := default "" (file req) in
  Part (fileUrl req originalname) originalname (uuidv4 r)
       (default "" (x_socket_id req)).

(** The array stored for [c], empty when there is none. *)
Definition buffer_of (s : state) (c : string) : list part :=
  default [] (hostUploadBuffers s !! c).

Definition uploads (ups : list (upload_request * N)) : list event :=
  (λ u, Upload u.1 u.2) <$> ups.

(** The same request under another role header. *)
Definition with_role (role : option string) (req : upload_request) : upload_request :=
  {| file := file req; public_url := public_url req; protocol := protocol req;
     host := host req; x_socket_id := x_socket_id req; x_uploader_role := role |}.

(** The product a flush by [c] announces. *)
Definition product (c : string) (parts : list part) : emission :=
  Emit ToAll "product-upload-complete"
       (VObj [("parts", VArr (part_value <$> parts)); ("sender", VStr c)]).

(** The requests of connection [c], the others, and the timer handles of
    a list of requests. *)
Definition requests_of (c : string) (o : list (string * request))
    : list (string * request) :=
  filter (λ p, requester p.2 = c) o.

Definition requests_not_of (c : string) (o : list (string * request))
    : list (string * request) :=
  filter (λ p, requester p.2 ≠ c) o.

Definition handles (o : list (string * request)) : list nat :=
  (λ p, timeout p.2) <$> o.

(** [clearTimeout] on each handle in turn. *)
Definition clear_timers (ts : list nat) (tm : gmap nat timer) : gmap nat timer :=
  foldl (λ tm t, delete t tm) tm ts.

(** The pending requests an event takes away by naming them: release-host
    and deny-host name a request by its key, cancel-host-request and
    disconnect by its requester. *)
Definition removes (e : event) (p : string * request) : bool :=
  match e with
  | Socket _ (ReleaseHost k) | Socket _ (DenyHost k) => bool_decide (p.1 = k)
  | Socket c CancelHostRequest | Socket c Disconnect =>
      bool_decide (requester p.2 = c)
  | _ => false
  end.

(** Well-formed states: the keys of [pendingRequests] are distinct, every
    armed timer was handed out before [nextTimer], and every pending request
    holds the handle of an armed timer whose callback closes over that
    request's requester and key. *)
Record wf (s : state) : Prop := Wf {
  wf_keys : NoDup (pendingRequests s).*1;
  wf_handles : ∀ t tm, timers s !! t = Some tm → t < nextTimer s;
  wf_armed : ∀ k r, (k, r) ∈ pendingRequests s →
    ∃ tm, timers s !! timeout r = Some tm
          ∧ timer_socket tm = requester r ∧ timer_request tm = k
}.

(** What cancel-host-request tells the host about the request [k]. *)
Definition cancelled_note (k : string) (h : value) : list emission :=
  if truthy h
  then [Emit (ToRoom h) "host-request-cancelled" (VObj [("requestId", VStr k)])]
  else [].

(** An event that leaves the request [rid] of [B], with timer [tid], in
    place: it is no release-host or deny-host naming [rid], no
    cancel-host-request or disconnect of [B], and not the timer firing. *)
Definition keeps (B rid : string) (tid : nat) (e : event) : bool :=
  negb (removes e (rid, Request tid B))
  && negb (match e with TimerFire t => bool_decide (t = tid) | _ => false end).

(** The two notifications addressed to the host alone. *)
Definition host_request_cancelled (A k : string) : emission :=
  Emit (ToRoom (VStr A)) "host-request-cancelled" (VObj [("requestId", VStr k)]).

Definition host_transfer_request (A requestId B : string) : emission :=
  Emit (ToRoom (VStr A)) "host-transfer-request"
       (VObj [("requestId", VStr requestId); ("requester", VStr B)]).

(** The bits of the random number [r] that show in [uuidv4 r]: its sixteen
    bytes, less the four bits of byte 6 that the version replaces and the
    two bits of byte 8 that the variant replaces. *)
Definition random_bits (r : N) : list N :=
  (λ i, N.land (rnd_byte r i)
          (if bool_decide (i = 6%nat) then 15
           else if bool_decide (i = 8%nat) then 63 else 255)) <$> seq 0 16.

(** The random numbers that the request-host events of a run have for
    [uuidv4], in the order of the events. *)
Definition draw (e : event) : list N :=
  match e with
  | Socket _ (RequestHost r) => [r]
  | _ => []
  end.

Definition request_draws (es : list event) : list N := es ≫= draw.

(** What a client that heard [h] last knows after an emission: a
    host-changed event sent to all replaces it by the identifier it
    carries. *)
Definition announce (h : value) (e : emission) : value :=
  match em_target e, em_payload e with
  | ToAll, VObj [(field, v)] =>
      if bool_decide (em_event e = "host-changed" ∧ field = "hostSocketId") then v else h
  | _, _ => h
  end.

Definition announced (h : value) (out : list emission) : value :=
  foldl announce h out.

(** ** The stored files

    The uploads directory, as the set of the names of the files in it.
    multer is configured with a disk storage whose destination is that
    directory and whose file name is [file.originalname], and it runs before
    the handler of [POST /upload], whatever the headers say. *)
Definition store (req : upload_request) (dir : gset string) : gset string :=
  match file req with
  | Some originalname => {[originalname]} ∪ dir
  | None => dir
  end.

(** [file.endsWith(suffix)]. *)
Definition endsWith (s suffix : string) : bool :=
  bool_decide (list_ascii_of_string suffix `suffix_of` list_ascii_of_string s).

(** [file.endsWith('.glb') || file.endsWith('.gltf')]. *)
Definition is_model_file (file : string) : bool :=
  endsWith file ".glb" || endsWith file ".gltf".

(** [GET /list-uploads]: [readdir] is what [fs.readdir] hands to the
    callback, [None] for an error and the names in the directory's order
    otherwise. Of the request only what [baseUrl] reads matters. *)
Definition list_uploads (req : upload_request) (readdir : option (list string))
    : response :=
  match readdir with
  | None => Json 500 (VObj [("error", VStr "Failed to read uploads directory")])
  | Some files =>
      Json 200
        (VArr ((λ file, VObj [("name", VStr file); ("url", VStr (fileUrl req file))])
               <$> filter (λ file, is_model_file file = true) files))
  end.

(** The two counters of [DELETE /delete-all-uploads]. *)
Record tally : Type := Tally {
  deleteCount : nat;
  errorCount : nat
}.

Definition deleted_message (t : tally) : value :=
  VObj [("message",
         VStr ("Deleted " +:+ pretty (deleteCount t)
               +:+ " files, failed to delete " +:+ pretty (errorCount t)
               +:+ " files"))].

(** The callback of one [fs.unlink]: it counts the outcome and answers when
    the two counters add up to [files.length], here [total]. *)
Definition unlink_done (total : nat) (ok : bool) (t : tally)
    : tally * list response :=
  let t' := if ok then Tally (S (deleteCount t)) (errorCount t)
            else Tally (deleteCount t) (S (errorCount t)) in
  (t', if bool_decide (deleteCount t' + errorCount t' = total)
       then [Json 200 (deleted_message t')] else []).

(** The unlinks that have completed, in the order of their callbacks;
    [unlink_ok] says which of them succeed, and a successful one removes the
    file. The result is the directory, the counters and the answers sent. *)
Fixpoint unlink_callbacks (total : nat) (unlink_ok : string → bool)
    (completed : list string) (dir : gset string) (t : tally)
    : gset string * tally * list response :=
  match completed with
  | [] => (dir, t, [])
  | file :: completed' =>
      let dir' := if unlink_ok file then dir ∖ {[file]} else dir in
      let '(t', out) := unlink_done total (unlink_ok file) t in
      let '(dir'', t'', out') :=
        unlink_callbacks total unlink_ok completed' dir' t' in
      (dir'', t'', out ++ out')
  end.

(** [DELETE /delete-all-uploads]. The handler issues one [fs.unlink] for
    each listed file that is a model file; [completed] are the ones whose
    callback has run, in that order. *)
Definition delete_all_uploads (readdir : option (list string))
    (unlink_ok : string → bool) (completed : list string) (dir : gset string)
    : gset string * list response :=
  match readdir with
  | None =>
      (dir, [Json 500 (VObj [("error", VStr "Failed to read uploads directory")])])
  | Some files =>
      if bool_decide (length files = 0)
      then (dir, [Json 200 (VObj [("message", VStr "No files to delete")])])
      else
        let '(dir', _, out) :=
          unlink_callbacks (length files) unlink_ok completed dir (Tally 0 0) in
        (dir', out)
  end.

(** ** The client's view of the host role

    What a participant keeps about the role: the flag [isHost], the host it
    was last told, and its own outstanding request. *)
Record client : Type := Client {
  isHost : bool;
  currentHostId : value;
  hostRequestPending : bool;
  hostRequestTimer : option nat
}.

(** [data.field] for the payload of a received event. *)
Definition get_field (field : string) (data : value) : value :=
  match data with
  | VObj fields => default VUndefined (own_get field fields)
  | _ => VUndefined
  end.

(** The client's handler of host-changed, for the client whose socket has
    the id [socket_id]. *)
Definition host_changed_received (socket_id : string) (data : value)
    (cl : client) : client :=
  let h := get_field "hostSocketId" data in
  {| currentHostId := h;
     isHost := if truthy h then strict_eq socket_id h else false;
     hostRequestPending := false;
     hostRequestTimer := None |}.

(** The client's handler of transfer-denied. *)
Definition transfer_denied_received (cl : client) : client :=
  {| currentHostId := currentHostId cl; isHost := isHost cl;
     hostRequestPending := false; hostRequestTimer := None |}.

(** What an event the client receives does to these four fields; its other
    handlers read [isHost] and leave them alone. *)
Definition client_receive (socket_id : string) (cl : client) (e : emission)
    : client :=
  if bool_decide (em_event e = "host-changed")
  then host_changed_received socket_id (em_payload e) cl
  else if bool_decide (em_event e = "transfer-denied")
  then transfer_denied_received cl
  else cl.

(** ** Vocabulary of further properties *)

(** A run in which every identifier [uuidv4] draws for a request-host is
    not pending at that moment. *)
Definition fresh (e : event) (s : state) : bool :=
  match e with
  | Socket _ (RequestHost r) =>
      bool_decide (own_get (uuidv4 r) (pendingRequests s) = None)
  | _ => true
  end.

Fixpoint fresh_run (es : list event) (s : state) : bool :=
  match es with
  | [] => true
  | e :: es' => fresh e s && fresh_run es' (after (step e) s)
  end.

(** The events that write to [hostUploadBuffers], with the key they write. *)
Definition buffer_key (e : event) : option string :=
  match e with
  | Upload req _ => x_socket_id req
  | Socket c ProductUploadComplete => Some c
  | _ => None
  end.

(** * Properties *)

(** ** Computations *)

Lemma after_bind {A B} (m : handler A) (f : A → handler B) s :
  after (m ≫= f) s = after (f (result m s)) (after m s).
Proof.
  unfold after, result, mbind, handler_bind.
  destruct (m s) as [[a s1] out1]; simpl.
  by destruct (f a s1) as [[b s2] out2].
Qed.

Lemma emitted_bind {A B} (m : handler A) (f : A → handler B) s :
  emitted (m ≫= f) s = emitted m s ++ emitted (f (result m s)) (after m s).
Proof.
  unfold emitted, after, result, mbind, handler_bind.
  destruct (m s) as [[a s1] out1]; simpl.
  by destruct (f a s1) as [[b s2] out2].
Qed.

Lemma after_eq {A} (m : handler A) s a s' out : m s = (a, s', out) → after m s = s'.
Proof. unfold after. by intros ->. Qed.

Lemma emitted_eq {A} (m : handler A) s a s' out :
  m s = (a, s', out) → emitted m s = out.
Proof. unfold emitted. by intros ->. Qed.

(** Unfolds a straight-line handler down to the state and events it yields. *)
Ltac unfold_handler :=
  cbn [step on] in *;
  unfold register_host, request_host, release_host, deny_host, give_up_host,
    model_transform, camera_update, reset_all, host_pointer_toggle,
    host_pointer_update, browse_selection, product_upload_complete, upload,
    fire, timeout_callback, setTimeout, clearTimeout, delete_pending,
    after, emitted, result, gets, modify, emit, when,
    mbind, handler_bind, mret, handler_ret in *;
  simpl in *.

Ltac handler_cases := unfold_handler; repeat (case_match; simplify_eq/=).

Lemma after_run_cons e es s :
  after (run (e :: es)) s = after (run es) (after (step e) s).
Proof. simpl. by rewrite after_bind. Qed.

Lemma emitted_run_cons e es s :
  emitted (run (e :: es)) s
  = emitted (step e) s ++ emitted (run es) (after (step e) s).
Proof. simpl. by rewrite emitted_bind. Qed.

(** ** Own properties *)

Section OwnPropertyFacts.
Context {A : Type}.
Implicit Types (o : list (string * A)) (k : string) (a : A).

Lemma filter_all {B} (P : B → Prop) `{!∀ x, Decision (P x)} (l : list B) :
  Forall P l → filter P l = l.
Proof.
  induction 1 as [|x l Hx _ IH]; [done|].
  by rewrite filter_cons_True, IH.
Qed.

Lemma filter_none {B} (P : B → Prop) `{!∀ x, Decision (P x)} (l : list B) :
  Forall (λ x, ¬ P x) l → filter P l = [].
Proof.
  induction 1 as [|x l Hx _ IH]; [done|].
  by rewrite filter_cons_False, IH.
Qed.

Lemma own_get_None k o : own_get k o = None ↔ k ∉ o.*1.
Proof.
  induction o as [|[k' a] o IH]; simpl.
  - split; [intros _; apply not_elem_of_nil|done].
  - rewrite not_elem_of_cons. case_bool_decide; subst.
    + split; [done|]. by intros [? _].
    + rewrite IH. split; [by intros ?; split|by intros [_ ?]].
Qed.

Lemma own_get_elem k a o : NoDup o.*1 → (k, a) ∈ o → own_get k o = Some a.
Proof.
  induction o as [|[k' a'] o IH]; simpl; [by intros _ ?%elem_of_nil|].
  intros [Hk' Hnd]%NoDup_cons [Heq|Hin]%elem_of_cons.
  - simplify_eq. by rewrite bool_decide_eq_true_2.
  - case_bool_decide; subst; [|by apply IH].
    destruct Hk'. apply list_elem_of_fmap. by exists (k, a).
Qed.

Lemma own_get_app k o1 o2 :
  own_get k (o1 ++ o2)
  = match own_get k o1 with Some a => Some a | None => own_get k o2 end.
Proof.
  induction o1 as [|[k' a'] o1 IH]; simpl; [done|].
  by case_bool_decide.
Qed.

Lemma own_delete_absent k o : k ∉ o.*1 → own_delete k o = o.
Proof.
  intros Hk. apply filter_all, Forall_forall.
  intros [k' a] Hin Heq; simpl in Heq; subst k'.
  apply Hk, list_elem_of_fmap. by exists (k, a).
Qed.

Lemma own_delete_elem k k' a o :
  (k', a) ∈ own_delete k o ↔ (k', a) ∈ o ∧ k' ≠ k.
Proof. unfold own_delete. rewrite list_elem_of_filter. simpl. tauto. Qed.

Lemma own_get_delete k o : own_get k (own_delete k o) = None.
Proof.
  apply own_get_None. intros ([k' a] & -> & Hin)%list_elem_of_fmap.
  apply own_delete_elem in Hin. simpl in *. tauto.
Qed.

Lemma own_delete_keys k o : (own_delete k o).*1 = filter (λ k', k' ≠ k) o.*1.
Proof.
  unfold own_delete. induction o as [|[k' a] o IH]; [done|].
  rewrite fmap_cons, !filter_cons; simpl.
  destruct (decide (k' ≠ k)); [rewrite fmap_cons; f_equal|]; exact IH.
Qed.

Lemma own_delete_NoDup k o : NoDup o.*1 → NoDup (own_delete k o).*1.
Proof. rewrite own_delete_keys. apply NoDup_filter. Qed.

Lemma own_set_fresh k a o : own_get k o = None → own_set k a o = o ++ [(k, a)].
Proof.
  induction o as [|[k' a'] o IH]; simpl; [done|].
  case_bool_decide; [done|]. intros H'. by rewrite IH.
Qed.

Lemma own_set_elem k a k' a' o :
  NoDup o.*1 →
  (k', a') ∈ own_set k a o → (k' = k ∧ a' = a) ∨ ((k', a') ∈ o ∧ k' ≠ k).
Proof.
  induction o as [|[k0 a0] o IH]; simpl.
  - intros _ [= -> ->]%list_elem_of_singleton. by left.
  - intros [Hk0 Hnd]%NoDup_cons. case_bool_decide; subst.
    + intros [Heq|Hin]%elem_of_cons; [simplify_eq; by left|].
      right. split; [by apply list_elem_of_further|].
      intros ->. apply Hk0, list_elem_of_fmap. by exists (k, a').
    + intros [Heq|Hin]%elem_of_cons.
      * simplify_eq. right. split; [apply list_elem_of_here|done].
      * destruct (IH Hnd Hin) as [?|[? ?]]; [by left|].
        right. split; [by apply list_elem_of_further|done].
Qed.

Lemma own_set_keys k a o :
  (own_set k a o).*1 = if decide (k ∈ o.*1) then o.*1 else o.*1 ++ [k].
Proof.
  induction o as [|[k0 a0] o IH]; [done|].
  cbn [own_set]. case_bool_decide; subst; rewrite !fmap_cons; cbn [fst].
  - by rewrite decide_True by apply list_elem_of_here.
  - rewrite IH. destruct (decide (k ∈ o.*1)) as [Hin|Hout].
    + by rewrite decide_True by by apply list_elem_of_further.
    + rewrite decide_False; [done|].
      rewrite not_elem_of_cons. by split.
Qed.

Lemma own_set_NoDup k a o : NoDup o.*1 → NoDup (own_set k a o).*1.
Proof.
  intros Hnd. rewrite own_set_keys. case_decide; [done|].
  apply NoDup_app. split_and!; [done| |apply NoDup_singleton].
  intros k' Hin ->%list_elem_of_singleton. done.
Qed.
End OwnPropertyFacts.

Lemma own_get_delete_ne {A} k k' (o : list (string * A)) :
  k' ≠ k → own_get k' (own_delete k o) = own_get k' o.
Proof.
  intros Hne. induction o as [|[k0 a] o IH]; [done|].
  unfold own_delete in *. rewrite filter_cons. cbn [fst own_get].
  destruct (decide (k0 ≠ k)) as [Hk|Hk].
  - cbn [own_get]. by rewrite IH.
  - apply dec_stable in Hk. simpl in Hk. subst k0.
    by rewrite bool_decide_eq_false_2 by done.
Qed.

Lemma own_get_Some_in {A} k (a : A) o : own_get k o = Some a → (k, a) ∈ o.
Proof.
  induction o as [|[k0 a0] o IH]; cbn [own_get]; [done|].
  case_bool_decide; subst.
  - intros [= ->]. apply list_elem_of_here.
  - intros Hget. by apply list_elem_of_further, IH.
Qed.

Lemma own_get_own_set {A} k (a : A) k' o :
  own_get k' (own_set k a o) = if bool_decide (k' = k) then Some a else own_get k' o.
Proof.
  induction o as [|[k0 a0] o IH]; cbn [own_set own_get].
  - repeat case_bool_decide; congruence.
  - destruct (decide (k0 = k)) as [->|Hk0].
    + rewrite (bool_decide_eq_true_2 (k = k)) by done. cbn [own_get].
      repeat case_bool_decide; congruence.
    + rewrite (bool_decide_eq_false_2 (k0 = k)) by done. cbn [own_get].
      rewrite IH. repeat case_bool_decide; congruence.
Qed.

(** ** Recipients *)

Lemma recipients_broadcast conns c d :
  d ∈ recipients conns (Broadcast c) ↔ d ∈ conns ∧ d ≠ c.
Proof. simpl. rewrite list_elem_of_filter. tauto. Qed.

Lemma recipients_room conns room d :
  d ∈ recipients conns (ToRoom (VStr room)) ↔ d ∈ conns ∧ d = room.
Proof. simpl. rewrite list_elem_of_filter. tauto. Qed.

(** ** The relays *)

(** C1. A model-transform, camera-update or reset-all message from [c] is
    relayed only when [c] is the host: then the payload goes out unchanged
    in one emission that reaches exactly the connections other than [c];
    otherwise nothing is emitted at all (so nothing, and no error, goes back
    to [c]). The state is untouched either way. *)
Theorem relay_host_gated (k : gated_kind) (c : string) (payload : value)
    (s : state) (conns : list string) :
  on c (gated_message k payload) s
  = ((), s,
     if strict_eq c (hostSocketId s)
     then [Emit (Broadcast c) (gated_event k) payload]
     else [])
  ∧ (∀ d, d ∈ recipients conns (Broadcast c) ↔ d ∈ conns ∧ d ≠ c)
  ∧ received conns c (emitted (on c (gated_message k payload)) s) = [].
Proof.
  assert (Hon : on c (gated_message k payload) s
    = ((), s, if strict_eq c (hostSocketId s)
              then [Emit (Broadcast c) (gated_event k) payload] else [])).
  { destruct k; simpl;
      unfold model_transform, camera_update, reset_all, mbind, handler_bind,
        gets, when, emit; simpl;
      by destruct (strict_eq c (hostSocketId s)). }
  split; [exact Hon|]. split; [intros d; apply recipients_broadcast|].
  unfold emitted. rewrite Hon. simpl.
  destruct (strict_eq c (hostSocketId s)); [|done].
  unfold received. rewrite filter_cons_False; [done|].
  simpl. rewrite list_elem_of_filter. tauto.
Qed.

(** C9. A host-pointer-toggle or host-pointer-update message from any [c]
    is relayed unchanged to exactly the connections other than [c]; the
    host identifier is not consulted, so the outcome is the same whoever
    the host is. *)
Theorem pointer_relay_ungated (k : pointer_kind) (c : string) (payload : value)
    (s : state) (conns : list string) :
  on c (pointer_message k payload) s
  = ((), s, [Emit (Broadcast c) (pointer_event k) payload])
  ∧ (∀ d, d ∈ recipients conns (Broadcast c) ↔ d ∈ conns ∧ d ≠ c)
  ∧ (∀ h, emitted (on c (pointer_message k payload)) (set_hostSocketId h s)
          = emitted (on c (pointer_message k payload)) s).
Proof.
  split; [by destruct k|].
  split; [intros d; apply recipients_broadcast|].
  intros h. by destruct k.
Qed.

(** ** Who receives a product *)

Lemma for_in_pendingRequests_keys body s :
  for_in_pendingRequests body s = for_keys (pendingRequests s).*1 body s.
Proof.
  unfold for_in_pendingRequests, mbind, handler_bind, gets.
  by destruct (for_keys _ _ s) as [[[] s'] out].
Qed.

Lemma emitted_for_keys_event keys body (name : string) s :
  (∀ k r s, Forall (λ e, em_event e = name) (emitted (body k r) s)) →
  Forall (λ e, em_event e = name) (emitted (for_keys keys body) s).
Proof.
  intros Hbody. revert s. induction keys as [|k keys IH]; intros s.
  { constructor. }
  simpl. rewrite !emitted_bind. rewrite !Forall_app. split_and!.
  - constructor.
  - unfold result, gets; simpl.
    destruct (own_get k (pendingRequests s)); [apply Hbody|constructor].
  - apply IH.
Qed.

Lemma emitted_product_upload_complete c s :
  emitted (product_upload_complete c) s
  = let b := or_empty (get_property (hostUploadBuffers s !! c) c) in
    if has_parts b
    then [Emit ToAll "product-upload-complete"
            (VObj [("parts", parts_value b); ("sender", VStr c)])]
    else [].
Proof.
  unfold product_upload_complete, emitted, mbind, handler_bind, gets, when; simpl.
  by destruct (has_parts _).
Qed.

Lemma emitted_browse_selection c parts s :
  emitted (browse_selection c parts) s
  = if strict_eq c (hostSocketId s)
    then [Emit ToAll "product-upload-complete"
            (VObj [("parts", parts); ("sender", VStr c)])]
    else [].
Proof.
  unfold browse_selection, emitted, mbind, handler_bind, gets, when; simpl.
  by destruct (strict_eq _ _).
Qed.

(** C6, as the claim has it, fails: after one host-role upload announcing
    socket B, B's product-upload-complete is emitted with [io.emit], and B,
    the sender, is among its recipients. *)
Lemma product_reaches_its_sender :
  ∃ e, e ∈ emitted (on "B" ProductUploadComplete)
             (after (step (Upload (example_upload "a.glb" "B" "host") 1)) initial)
       ∧ em_event e = "product-upload-complete"
       ∧ em_payload e
         = VObj [("parts",
                  VArr [part_value (Part "http://viewer.example:3000/uploads/a.glb"
                                         "a.glb" (uuidv4 1) "B")]);
                 ("sender", VStr "B")]
       ∧ "B" ∈ recipients ["A"; "B"] (em_target e).
Proof.
  eexists. split; [|split; [|split]].
  - vm_compute. apply list_elem_of_here.
  - reflexivity.
  - reflexivity.
  - simpl. set_solver.
Qed.

(** C6, amended. Whatever event the server handles, an emission named
    product-upload-complete is made with [io.emit]: it reaches every
    connection, the sender included. Those of the flush and of the browse
    selection of a socket [c] name [c] as the sender in the payload. *)
Theorem product_reaches_everyone (e : event) (c : string) (parts : value)
    (s : state) (conns : list string) :
  Forall (λ em, em_event em = "product-upload-complete" →
                em_target em = ToAll ∧ recipients conns (em_target em) = conns)
         (emitted (step e) s)
  ∧ Forall (λ em, em_event em = "product-upload-complete"
                  ∧ em_target em = ToAll
                  ∧ ∃ ps, em_payload em = VObj [("parts", ps); ("sender", VStr c)])
           (emitted (on c ProductUploadComplete) s
            ++ emitted (on c (BrowseSelection parts)) s).
Proof.
  split.
  - destruct e as [c' m|req r|t|dt]; simpl.
    + destruct m; simpl;
        try (handler_cases; repeat constructor; simpl; by try discriminate).
      * unfold cancel_host_request, emitted.
        rewrite for_in_pendingRequests_keys.
        eapply Forall_impl;
          [apply (emitted_for_keys_event _ _ "host-request-cancelled")|].
        -- intros k r s'. handler_cases; by repeat constructor.
        -- simpl. intros em -> ?. discriminate.
      * unfold disconnect. rewrite emitted_bind, emitted_bind.
        rewrite !Forall_app. split_and!.
        -- constructor.
        -- handler_cases; repeat constructor; simpl; discriminate.
        -- unfold emitted at 1. rewrite for_in_pendingRequests_keys.
           eapply Forall_impl; [apply (emitted_for_keys_event _ _ "")|].
           ++ intros k r s'. handler_cases; by repeat constructor.
           ++ simpl. intros em -> ?. discriminate.
    + handler_cases; by repeat constructor.
    + handler_cases; repeat constructor; simpl; discriminate.
    + constructor.
  - simpl. rewrite emitted_product_upload_complete, emitted_browse_selection.
    simpl. repeat case_match; repeat constructor; simpl; eauto.
Qed.

(** ** Stale request identifiers *)

(** X11. A [requestId] that names neither a pending request nor a member of
    [Object.prototype] is ignored by release-host and deny-host. *)
Lemma stale_reference_ignored (r : string) (s : state) :
  own_get r (pendingRequests s) = None →
  inherited r = false →
  release_host r s = ((), s, []) ∧ deny_host r s = ((), s, []).
Proof.
  intros Hown Hinh.
  unfold release_host, deny_host, mbind, handler_bind, gets, get_property.
  by rewrite Hown, Hinh.
Qed.

(** X12. A [requestId] that names a member of [Object.prototype] passes the
    test [if (pendingRequests[requestId])] of deny-host as well; the denial
    is addressed to the room [undefined], which holds no connection. *)
Lemma deny_host_inherited_key (r : string) (s : state) (conns : list string) :
  own_get r (pendingRequests s) = None →
  inherited r = true →
  after (deny_host r) s = s
  ∧ emitted (deny_host r) s
    = [Emit (ToRoom VUndefined) "transfer-denied" (VObj [("requestId", VStr r)])]
  ∧ ∀ c, received conns c (emitted (deny_host r) s) = [].
Proof.
  intros Hown Hinh.
  assert (Hrun : deny_host r s
    = ((), set_pendingRequests (own_delete r (pendingRequests s)) s,
       [Emit (ToRoom VUndefined) "transfer-denied" (VObj [("requestId", VStr r)])])).
  { unfold deny_host, mbind, handler_bind, gets, get_property.
    by rewrite Hown, Hinh. }
  assert (Hdel : own_delete r (pendingRequests s) = pendingRequests s).
  { by apply own_delete_absent, own_get_None. }
  unfold after, emitted. rewrite Hrun, Hdel. simpl.
  split; [by destruct s|]. split; [done|].
  intros c. unfold received. rewrite filter_cons_False; [done|].
  simpl. by intros ?%elem_of_nil.
Qed.

(** C7, at the failing input. Socket A is the host and nothing is pending;
    release-host with [requestId] "toString" finds the inherited method,
    takes its missing [requester] field as the new host and announces it:
    the host identifier becomes [undefined] and host-changed goes to all. *)
Lemma release_host_inherited_key :
  own_get "toString" (pendingRequests (after (step (Socket "A" RegisterHost)) initial))
  = None
  ∧ hostSocketId (after (step (Socket "A" RegisterHost)) initial) = VStr "A"
  ∧ on "B" (ReleaseHost "toString") (after (step (Socket "A" RegisterHost)) initial)
    = ((), set_hostSocketId VUndefined (after (step (Socket "A" RegisterHost)) initial),
       [Emit ToAll "host-changed" (host_changed VUndefined)]).
Proof. by vm_compute. Qed.

(** ** One host *)

Lemma strict_eq_true c v : strict_eq c v = true ↔ v = VStr c.
Proof.
  destruct v; simpl; try by split.
  rewrite bool_decide_eq_true. split; congruence.
Qed.

Lemma at_most_one_strict_eq (v : value) (conns : list string) :
  NoDup conns →
  length (filter (λ c, strict_eq c v = true) conns) ≤ 1.
Proof.
  induction 1 as [|c conns Hc Hnd IH]; [simpl; lia|].
  rewrite filter_cons. destruct (decide (strict_eq c v = true)) as [Heq|]; [|done].
  apply strict_eq_true in Heq. subst v.
  rewrite (filter_none _ conns); [simpl; lia|].
  apply Forall_forall. intros d Hd Heq. apply strict_eq_true in Heq.
  congruence.
Qed.

(** ** Identifiers *)

Lemma uuidv4_length r : String.length (uuidv4 r) = 36.
Proof. reflexivity. Qed.

Lemma inherited_length k : inherited k = true → String.length k ≤ 20.
Proof.
  unfold inherited. rewrite bool_decide_eq_true. simpl.
  rewrite !elem_of_cons, elem_of_nil.
  intros H; repeat (destruct H as [->|H]; [simpl; lia|]); done.
Qed.

(** An identifier drawn by [uuidv4] never names a member of
    [Object.prototype], so storing a record under it creates or overwrites
    an own property. *)
Lemma uuidv4_not_inherited r : inherited (uuidv4 r) = false.
Proof.
  destruct (inherited (uuidv4 r)) eqn:Hinh; [|done].
  apply inherited_length in Hinh. rewrite uuidv4_length in Hinh. lia.
Qed.

(** ** Distinct random bits give distinct identifiers *)

Lemma hex_char_inj (a b : N) : hex_char a = hex_char b → (a mod 16 = b mod 16)%N.
Proof.
  unfold hex_char. intros Heq.
  set (digits := list_ascii_of_string "0123456789abcdef") in *.
  assert (Hlt : ∀ n : N, N.to_nat (n mod 16) < length digits).
  { intros n. pose proof (N.mod_upper_bound n 16). simpl. lia. }
  destruct (lookup_lt_is_Some_2 digits _ (Hlt a)) as [x Hx].
  destruct (lookup_lt_is_Some_2 digits _ (Hlt b)) as [y Hy].
  rewrite Hx, Hy in Heq. simpl in Heq. subst y.
  assert (Hnd : NoDup digits) by (apply (bool_decide_unpack _); by vm_compute).
  pose proof (NoDup_lookup digits _ _ x Hnd Hx Hy). lia.
Qed.

Lemma rnd_byte_lt r i : (rnd_byte r i < 256)%N.
Proof.
  unfold rnd_byte. change 255%N with (N.ones 8). rewrite N.land_ones.
  by apply N.mod_upper_bound.
Qed.

Lemma land_lor_small (x m v : N) :
  N.land v m = 0%N → N.land (N.lor (N.land x m) v) m = N.land x m.
Proof.
  intros Hv. rewrite N.land_lor_distr_l, Hv, N.lor_0_r, <- N.land_assoc.
  by rewrite N.land_diag.
Qed.

Lemma uuid_byte_lt r i : (uuid_byte r i < 256)%N.
Proof.
  assert (Hlor : ∀ x m v, (0 < v)%N → (N.log2 m < 8)%N → (N.log2 v < 8)%N →
                          (N.lor (N.land x m) v < 256)%N).
  { intros x m v Hv Hm Hv8. change 256%N with (2 ^ 8)%N.
    apply N.log2_lt_pow2.
    - destruct (N.lor (N.land x m) v) eqn:Hz; [|lia].
      apply N.lor_eq_0_iff in Hz. lia.
    - rewrite N.log2_lor. pose proof (N.log2_land x m). lia. }
  unfold uuid_byte. repeat case_bool_decide.
  - apply Hlor; by vm_compute.
  - apply Hlor; by vm_compute.
  - apply rnd_byte_lt.
Qed.

Lemma hex_byte_inj (x y : N) :
  (x < 256)%N → (y < 256)%N →
  hex_char (x / 16) = hex_char (y / 16) → hex_char x = hex_char y → x = y.
Proof.
  intros Hx Hy Hhi%hex_char_inj Hlo%hex_char_inj.
  rewrite (N.div_mod x 16), (N.div_mod y 16) by done.
  rewrite (N.mod_small (x / 16)) in Hhi
    by (apply N.Div0.div_lt_upper_bound; lia).
  rewrite (N.mod_small (y / 16)) in Hhi
    by (apply N.Div0.div_lt_upper_bound; lia).
  congruence.
Qed.

Lemma uuid_groups_inj r r' (l : list nat) :
  concat (uuid_group r <$> l) = concat (uuid_group r' <$> l) →
  Forall (λ i, uuid_byte r i = uuid_byte r' i) l.
Proof.
  induction l as [|i l IH]; [done|].
  rewrite !fmap_cons. cbn [concat]. unfold uuid_group at 1 3.
  pose proof (uuid_byte_lt r i). pose proof (uuid_byte_lt r' i).
  destruct (bool_decide (i ∈ [4; 6; 8; 10])); simpl; intros Heq;
    simplify_eq; constructor; auto using hex_byte_inj.
Qed.

Lemma uuid_byte_random r r' i :
  uuid_byte r i = uuid_byte r' i
  ↔ N.land (rnd_byte r i)
      (if bool_decide (i = 6%nat) then 15
       else if bool_decide (i = 8%nat) then 63 else 255)
    = N.land (rnd_byte r' i)
        (if bool_decide (i = 6%nat) then 15
         else if bool_decide (i = 8%nat) then 63 else 255).
Proof.
  unfold uuid_byte. repeat case_bool_decide.
  - split; [|by intros ->]. intros Heq.
    apply (f_equal (λ z, N.land z 15)) in Heq. by rewrite !land_lor_small in Heq.
  - split; [|by intros ->]. intros Heq.
    apply (f_equal (λ z, N.land z 63)) in Heq. by rewrite !land_lor_small in Heq.
  - unfold rnd_byte. by rewrite <- !N.land_assoc, N.land_diag.
Qed.

(** Two draws give the same identifier exactly when they agree on the bits
    that [uuidv4] keeps. *)
Lemma uuidv4_inj r r' : uuidv4 r = uuidv4 r' ↔ random_bits r = random_bits r'.
Proof.
  unfold random_bits. rewrite <- Forall_fmap_ext. split.
  - intros Heq. apply (f_equal list_ascii_of_string) in Heq.
    unfold uuidv4 in Heq. rewrite !list_ascii_of_string_of_list_ascii in Heq.
    apply uuid_groups_inj in Heq.
    eapply Forall_impl; [exact Heq|]. intros i. apply uuid_byte_random.
  - intros Heq. unfold uuidv4. do 2 f_equal. apply Forall_fmap_ext.
    eapply Forall_impl; [exact Heq|]. intros i Hi%uuid_byte_random.
    unfold uuid_group. by rewrite Hi.
Qed.

(** ** The upload buffer *)

Lemma upload_host_role H req r s :
  host_upload_for H req → H ≠ "" → inherited H = false →
  upload req r s
  = (Json 200 (VObj [("url", VStr (fileUrl req (default "" (file req))));
                     ("name", VStr (default "" (file req)))]),
     push_part H (upload_entry req r) s, []).
Proof.
  intros ([originalname Hfile] & Hid & Hrole) Hne Hinh.
  unfold upload, upload_entry, uploaderRole. rewrite Hfile, Hid, Hrole. simpl.
  rewrite (bool_decide_eq_false_2 (H = "")) by done. simpl.
  unfold mbind, handler_bind, gets, get_property. rewrite Hinh.
  by destruct (hostUploadBuffers s !! H).
Qed.

Lemma upload_other_role req r s :
  uploaderRole req ≠ "host" →
  after (upload req r) s = s ∧ emitted (upload req r) s = [].
Proof.
  intros Hrole. unfold upload, after, emitted.
  destruct (file req); [|done]. destruct (x_socket_id req); [|done].
  by rewrite bool_decide_eq_false_2.
Qed.

Lemma buffer_of_push H p s : buffer_of (push_part H p s) H = buffer_of s H ++ [p].
Proof. unfold buffer_of, push_part. simpl. by rewrite lookup_insert_eq. Qed.

Lemma buffer_of_uploads H ups s :
  H ≠ "" → inherited H = false →
  Forall (λ u, host_upload_for H u.1) ups →
  buffer_of (after (run (uploads ups)) s) H
  = buffer_of s H ++ ((λ u, upload_entry u.1 u.2) <$> ups)
  ∧ emitted (run (uploads ups)) s = [].
Proof.
  intros Hne Hinh Hups. revert s.
  induction Hups as [|[req r] ups Hreq _ IH]; intros s.
  { split; [by rewrite app_nil_r|done]. }
  unfold uploads. rewrite fmap_cons. fold (uploads ups).
  rewrite after_run_cons, emitted_run_cons. cbn [fst snd] in *.
  assert (Hstep : step (Upload req r) s = ((), push_part H (upload_entry req r) s, [])).
  { simpl. unfold mbind, handler_bind. by rewrite (upload_host_role H). }
  rewrite (after_eq _ _ _ _ _ Hstep), (emitted_eq _ _ _ _ _ Hstep). simpl.
  destruct (IH (push_part H (upload_entry req r) s)) as [-> ->].
  by rewrite buffer_of_push, <- app_assoc.
Qed.

Lemma flush_buffer c s :
  inherited c = false →
  product_upload_complete c s
  = if bool_decide (buffer_of s c = [])
    then ((), s, [])
    else ((), set_hostUploadBuffers (<[c := []]> (hostUploadBuffers s)) s,
          [product c (buffer_of s c)]).
Proof.
  intros Hinh.
  unfold product_upload_complete, buffer_of, mbind, handler_bind, gets, get_property.
  rewrite Hinh. destruct (hostUploadBuffers s !! c) as [[|p parts]|]; done.
Qed.

(** C3. Starting from an empty buffer for [H], [k >= 1] accepted host-role
    uploads for [H] emit nothing; the product-upload-complete that follows
    makes exactly one emission, to all, holding exactly the [k] entries in
    the order of the uploads, and leaves [H]'s buffer empty; a second
    product-upload-complete right after it emits nothing. *)
Theorem buffered_uploads_flush_once (H : string)
    (ups : list (upload_request * N)) (s : state) :
  H ≠ "" → inherited H = false →
  ups ≠ [] →
  Forall (λ u, host_upload_for H u.1) ups →
  buffer_of s H = [] →
  let s1 := after (run (uploads ups)) s in
  let s2 := after (on H ProductUploadComplete) s1 in
  emitted (run (uploads ups)) s = []
  ∧ emitted (on H ProductUploadComplete) s1
    = [product H ((λ u, upload_entry u.1 u.2) <$> ups)]
  ∧ length ((λ u, upload_entry u.1 u.2) <$> ups) = length ups
  ∧ hostUploadBuffers s2 !! H = Some []
  ∧ emitted (on H ProductUploadComplete) s2 = [].
Proof.
  intros Hne Hinh Hk Hups Hempty s1 s2.
  destruct (buffer_of_uploads H ups s Hne Hinh Hups) as [Hbuf Hout].
  rewrite Hempty in Hbuf. simpl in Hbuf. fold s1 in Hbuf.
  assert (Hflush : on H ProductUploadComplete s1
    = ((), set_hostUploadBuffers (<[H := []]> (hostUploadBuffers s1)) s1,
       [product H ((λ u, upload_entry u.1 u.2) <$> ups)])).
  { simpl. rewrite flush_buffer by done. rewrite Hbuf.
    rewrite bool_decide_eq_false_2; [done|]. by destruct ups. }
  assert (Hs2 : s2 = set_hostUploadBuffers (<[H := []]> (hostUploadBuffers s1)) s1).
  { unfold s2, after. by rewrite Hflush. }
  split_and!.
  - done.
  - unfold emitted. by rewrite Hflush.
  - by rewrite length_fmap.
  - rewrite Hs2. simpl. by rewrite lookup_insert_eq.
  - unfold emitted. simpl. rewrite flush_buffer by done.
    rewrite bool_decide_eq_true_2; [done|].
    rewrite Hs2. unfold buffer_of. simpl. by rewrite lookup_insert_eq.
Qed.

Lemma buffered_uploads_flush_once_witness :
  let ups := [(example_upload "a.glb" "B" "host", 1%N);
              (example_upload "b.glb" "B" "host", 2%N)] in
  let s1 := after (run (uploads ups)) initial in
  let s2 := after (on "B" ProductUploadComplete) s1 in
  emitted (run (uploads ups)) initial = []
  ∧ emitted (on "B" ProductUploadComplete) s1
    = [product "B" ((λ u, upload_entry u.1 u.2) <$> ups)]
  ∧ length ((λ u, upload_entry u.1 u.2) <$> ups) = length ups
  ∧ hostUploadBuffers s2 !! "B" = Some []
  ∧ emitted (on "B" ProductUploadComplete) s2 = [].
Proof.
  apply (buffered_uploads_flush_once "B"
           [(example_upload "a.glb" "B" "host", 1%N);
            (example_upload "b.glb" "B" "host", 2%N)] initial).
  - discriminate.
  - reflexivity.
  - discriminate.
  - repeat constructor; simpl; eauto.
  - reflexivity.
Defined.

(** C10. An accepted upload whose headers claim the role host and name a
    connection [c] is appended to [c]'s buffer, and a product-upload-complete
    from [c] then announces the whole buffer to all, whatever the host
    identifier is: neither step reads it, so replacing it by any other value
    changes neither the buffers nor the emissions. With any other role
    header the same upload leaves the buffers as they were. *)
Theorem role_header_decides_buffering (c : string) (req : upload_request)
    (r : N) (s : state) :
  c ≠ "" → inherited c = false →
  host_upload_for c req →
  let s1 := after (upload req r) s in
  hostUploadBuffers s1 !! c = Some (buffer_of s c ++ [upload_entry req r])
  ∧ emitted (on c ProductUploadComplete) s1
    = [product c (buffer_of s c ++ [upload_entry req r])]
  ∧ (∀ h, hostUploadBuffers (after (upload req r) (set_hostSocketId h s))
          = hostUploadBuffers s1
          ∧ emitted (on c ProductUploadComplete) (set_hostSocketId h s1)
            = emitted (on c ProductUploadComplete) s1)
  ∧ (∀ role, role ≠ Some "host" →
       hostUploadBuffers (after (upload (with_role role req) r) s)
       = hostUploadBuffers s).
Proof.
  intros Hne Hinh Hreq s1.
  assert (Hs1 : ∀ h, after (upload req r) (set_hostSocketId h s)
                     = push_part c (upload_entry req r) (set_hostSocketId h s)).
  { intros h. eapply after_eq. by apply upload_host_role. }
  assert (Hs1' : s1 = push_part c (upload_entry req r) s).
  { eapply after_eq. by apply upload_host_role. }
  assert (Hflush : ∀ s', buffer_of s' c = buffer_of s c ++ [upload_entry req r] →
     emitted (on c ProductUploadComplete) s'
     = [product c (buffer_of s c ++ [upload_entry req r])]).
  { intros s' Hbuf. unfold emitted. simpl. rewrite flush_buffer by done.
    rewrite Hbuf. rewrite bool_decide_eq_false_2; [done|].
    by destruct (buffer_of s c). }
  split_and!.
  - rewrite Hs1'. simpl. by rewrite lookup_insert_eq.
  - apply Hflush. rewrite Hs1'. apply buffer_of_push.
  - intros h. split.
    + by rewrite Hs1, Hs1'.
    + rewrite !Hflush; [done| |].
      * rewrite Hs1'. apply buffer_of_push.
      * rewrite Hs1'. apply (buffer_of_push c _ (set_hostSocketId h s)).
  - intros role Hrole.
    destruct (upload_other_role (with_role role req) r s) as [-> _]; [|done].
    unfold uploaderRole. simpl.
    destruct role as [role|]; simpl; [|done].
    case_bool_decide; simpl; [done|]. congruence.
Qed.

Lemma role_header_decides_buffering_witness :
  let req := example_upload "a.glb" "B" "host" in
  let s := after (step (Socket "A" RegisterHost)) initial in
  let s1 := after (upload req 1) s in
  hostUploadBuffers s1 !! "B" = Some (buffer_of s "B" ++ [upload_entry req 1])
  ∧ emitted (on "B" ProductUploadComplete) s1
    = [product "B" (buffer_of s "B" ++ [upload_entry req 1])]
  ∧ (∀ h, hostUploadBuffers (after (upload req 1) (set_hostSocketId h s))
          = hostUploadBuffers s1
          ∧ emitted (on "B" ProductUploadComplete) (set_hostSocketId h s1)
            = emitted (on "B" ProductUploadComplete) s1)
  ∧ (∀ role, role ≠ Some "host" →
       hostUploadBuffers (after (upload (with_role role req) 1) s)
       = hostUploadBuffers s).
Proof.
  apply (role_header_decides_buffering "B" (example_upload "a.glb" "B" "host") 1
           (after (step (Socket "A" RegisterHost)) initial)).
  - discriminate.
  - reflexivity.
  - repeat split; simpl; eauto.
Defined.

(** ** The loops over pending requests *)

Lemma lookup_clear_timers ts (tm : gmap nat timer) t :
  clear_timers ts tm !! t = if decide (t ∈ ts) then None else tm !! t.
Proof.
  unfold clear_timers. revert tm.
  induction ts as [|t' ts IH]; intros tm; cbn [foldl]; [done|].
  rewrite IH. destruct (decide (t ∈ ts)) as [Hin|Hout].
  - by rewrite decide_True by by apply list_elem_of_further.
  - destruct (decide (t = t')) as [->|Hne].
    + rewrite decide_True by apply list_elem_of_here. apply lookup_delete_eq.
    + rewrite decide_False by (rewrite not_elem_of_cons; by split).
      by apply lookup_delete_ne.
Qed.

(** A loop whose body drops the requests of [c] (clearing their timers and
    emitting [note] for each) leaves the other requests in place, clears
    those timers in order, and emits the notes in order. *)
Lemma for_keys_requests (c : string)
    (body : string → request → handler unit)
    (note : string → value → list emission) :
  (∀ k r s, body k r s
     = if bool_decide (requester r = c)
       then ((), set_pendingRequests (own_delete k (pendingRequests s))
                   (set_timers (delete (timeout r) (timers s)) s),
             note k (hostSocketId s))
       else ((), s, [])) →
  ∀ rest kept s,
    pendingRequests s = kept ++ rest →
    NoDup (kept ++ rest).*1 →
    for_keys rest.*1 body s
    = ((), set_pendingRequests (kept ++ requests_not_of c rest)
             (set_timers (clear_timers (handles (requests_of c rest)) (timers s)) s),
       requests_of c rest ≫= (λ p, note p.1 (hostSocketId s))).
Proof.
  intros Hbody rest. induction rest as [|[k r] rest IH]; intros kept s Hpr Hnd.
  { simpl. rewrite app_nil_r, <- (app_nil_r kept), <- Hpr. by destruct s. }
  rewrite fmap_cons. cbn [for_keys fst].
  assert (Hk : (k ∉ kept.*1) ∧ (k ∉ rest.*1)).
  { rewrite fmap_app, fmap_cons in Hnd. apply NoDup_app in Hnd as (_ & Hd & Hr).
    apply NoDup_cons in Hr as [Hr _]. split; [|done].
    intros Hin. apply (Hd _ Hin), list_elem_of_here. }
  destruct Hk as [Hkd Hkr].
  assert (Hget : own_get k (pendingRequests s) = Some r).
  { rewrite Hpr, own_get_app. apply own_get_None in Hkd. rewrite Hkd. simpl.
    by rewrite bool_decide_eq_true_2. }
  unfold mbind, handler_bind, gets at 1. rewrite Hget, Hbody.
  unfold requests_not_of, requests_of. rewrite !filter_cons. cbn [fst snd].
  destruct (decide (requester r = c)) as [Hc|Hc].
  - rewrite bool_decide_eq_true_2 by done.
    rewrite decide_False by (intros Hn; by apply Hn).
    rewrite (IH kept); cbn [pendingRequests set_pendingRequests].
    + simpl. by destruct s.
    + rewrite Hpr. unfold own_delete. rewrite filter_app, filter_cons_False by (simpl; tauto).
      fold (own_delete k kept). fold (own_delete k rest).
      by rewrite !own_delete_absent.
    + rewrite fmap_app in Hnd |- *. rewrite fmap_cons in Hnd.
      apply NoDup_app in Hnd as (Hd & Hdr & Hr). apply NoDup_cons in Hr as [_ Hr].
      apply NoDup_app. split_and!; [done| |done].
      intros x Hx Hx'. apply (Hdr x Hx). by apply list_elem_of_further.
  - rewrite bool_decide_eq_false_2 by done.
    rewrite decide_True by done.
    rewrite (IH (kept ++ [(k, r)])).
    + simpl. by rewrite <- app_assoc.
    + by rewrite <- app_assoc.
    + by rewrite <- app_assoc.
Qed.

Lemma cancel_host_request_requests c s :
  NoDup (pendingRequests s).*1 →
  cancel_host_request c s
  = ((), set_pendingRequests (requests_not_of c (pendingRequests s))
           (set_timers (clear_timers (handles (requests_of c (pendingRequests s)))
                          (timers s)) s),
     requests_of c (pendingRequests s) ≫= (λ p, cancelled_note p.1 (hostSocketId s))).
Proof.
  intros Hnd. unfold cancel_host_request.
  rewrite for_in_pendingRequests_keys.
  rewrite (for_keys_requests c _ cancelled_note) with (kept := []); try done.
  intros k r s'. unfold cancelled_note.
  handler_cases; by destruct s'.
Qed.

Lemma disconnect_requests c s :
  NoDup (pendingRequests s).*1 →
  disconnect c s
  = ((), set_pendingRequests (requests_not_of c (pendingRequests s))
           (set_timers (clear_timers (handles (requests_of c (pendingRequests s)))
                          (timers s))
              (if strict_eq c (hostSocketId s) then set_hostSocketId VNull s else s)),
     if strict_eq c (hostSocketId s)
     then [Emit ToAll "host-changed" (host_changed VNull)] else []).
Proof.
  intros Hnd. unfold disconnect.
  unfold mbind at 1 2, handler_bind at 1 2, gets at 1.
  assert (Hloop : ∀ s', pendingRequests s' = pendingRequests s →
    for_in_pendingRequests (λ reqId r,
      when (bool_decide (requester r = c))
        (clearTimeout (Some (timeout r));; delete_pending reqId)) s'
    = ((), set_pendingRequests (requests_not_of c (pendingRequests s'))
             (set_timers (clear_timers (handles (requests_of c (pendingRequests s')))
                            (timers s')) s'), [])).
  { intros s' Hpr. rewrite for_in_pendingRequests_keys.
    rewrite (for_keys_requests c _ (λ _ _, [])) with (kept := []);
      [|intros k r s''; handler_cases; by destruct s''|done|by rewrite Hpr].
    simpl. f_equal. induction (requests_of c (pendingRequests s')); done. }
  destruct (strict_eq c (hostSocketId s)); simpl.
  - rewrite Hloop by done. by destruct s.
  - rewrite Hloop by done. by destruct s.
Qed.

(** ** What an event does to the pending requests and the timers *)

Lemma filter_key (k : string) (o : list (string * request)) :
  NoDup o.*1 →
  filter (λ p, p.1 = k) o
  = match own_get k o with Some r => [(k, r)] | None => [] end.
Proof.
  induction o as [|[k' r'] o IH]; [done|].
  rewrite fmap_cons. cbn [fst]. intros [Hk' Hnd]%NoDup_cons.
  rewrite filter_cons. cbn [own_get fst].
  destruct (decide (k' = k)) as [->|Hne].
  - rewrite bool_decide_eq_true_2 by done. rewrite IH by done.
    apply own_get_None in Hk'. by rewrite Hk'.
  - rewrite bool_decide_eq_false_2 by done. by apply IH.
Qed.

Lemma request_host_cases c r s :
  request_host c r s
  = if negb (truthy (hostSocketId s)) then
      ((), set_hostSocketId (VStr c) s,
       [Emit ToAll "host-changed" (host_changed (VStr c))])
    else if strict_eq c (hostSocketId s) then ((), s, [])
    else
      ((), set_pendingRequests
             (own_set (uuidv4 r) (Request (nextTimer s) c) (pendingRequests s))
             (set_nextTimer (S (nextTimer s))
                (set_timers
                   (<[nextTimer s := Timer 30000 (clock s + 30000) c (uuidv4 r)]>
                      (timers s)) s)),
       [Emit (ToRoom (hostSocketId s)) "host-transfer-request"
             (VObj [("requestId", VStr (uuidv4 r)); ("requester", VStr c)])]).
Proof. unfold request_host. handler_cases; by destruct s. Qed.

Lemma fire_cases t s :
  fire t s
  = match timers s !! t with
    | Some tm =>
        if bool_decide (due tm ≤ clock s)%N then
          ((), set_pendingRequests (own_delete (timer_request tm) (pendingRequests s))
                 (set_hostSocketId (VStr (timer_socket tm))
                    (set_timers (delete t (timers s)) s)),
           [Emit ToAll "host-changed" (host_changed (VStr (timer_socket tm)))])
        else ((), s, [])
    | None => ((), s, [])
    end.
Proof. handler_cases; done. Qed.

Lemma release_host_cases k s :
  release_host k s
  = match get_property (own_get k (pendingRequests s)) k with
    | Own r =>
        ((), set_pendingRequests (own_delete k (pendingRequests s))
               (set_hostSocketId (VStr (requester r))
                  (set_timers (delete (timeout r) (timers s)) s)),
         [Emit ToAll "host-changed" (host_changed (VStr (requester r)))])
    | Inherited _ =>
        ((), set_pendingRequests (own_delete k (pendingRequests s))
               (set_hostSocketId VUndefined s),
         [Emit ToAll "host-changed" (host_changed VUndefined)])
    | Missing => ((), s, [])
    end.
Proof. handler_cases; try done; by destruct s. Qed.

Lemma deny_host_cases k s :
  deny_host k s
  = match get_property (own_get k (pendingRequests s)) k with
    | Own r =>
        ((), set_pendingRequests (own_delete k (pendingRequests s))
               (set_timers (delete (timeout r) (timers s)) s),
         [Emit (ToRoom (VStr (requester r))) "transfer-denied"
               (VObj [("requestId", VStr k)])])
    | Inherited _ =>
        ((), set_pendingRequests (own_delete k (pendingRequests s)) s,
         [Emit (ToRoom VUndefined) "transfer-denied" (VObj [("requestId", VStr k)])])
    | Missing => ((), s, [])
    end.
Proof. handler_cases; try done; by destruct s. Qed.

Lemma removal_by_key k (o : list (string * request)) (tm : gmap nat timer) :
  NoDup o.*1 →
  own_delete k o = filter (λ p, bool_decide (p.1 = k) = false) o
  ∧ clear_timers (handles (filter (λ p, bool_decide (p.1 = k) = true) o)) tm
    = match own_get k o with Some r => delete (timeout r) tm | None => tm end.
Proof.
  intros Hnd. split.
  - unfold own_delete. apply list_filter_iff. intros p.
    by rewrite bool_decide_eq_false.
  - rewrite (list_filter_iff _ (λ p, p.1 = k))
      by (intros p; apply bool_decide_eq_true).
    rewrite filter_key by done. by destruct (own_get k o).
Qed.

Lemma removal_by_requester c (o : list (string * request)) :
  requests_not_of c o = filter (λ p, bool_decide (requester p.2 = c) = false) o
  ∧ requests_of c o = filter (λ p, bool_decide (requester p.2 = c) = true) o.
Proof.
  split; apply list_filter_iff; intros p.
  - by rewrite bool_decide_eq_false.
  - by rewrite bool_decide_eq_true.
Qed.

(** Apart from a request that is queued and a timer that fires, an event
    changes the pending requests and the timers only by taking away the
    requests it names and clearing their timers. *)
Lemma step_removal e s :
  NoDup (pendingRequests s).*1 →
  (∀ c r, e ≠ Socket c (RequestHost r)) → (∀ t, e ≠ TimerFire t) →
  pendingRequests (after (step e) s)
  = filter (λ p, removes e p = false) (pendingRequests s)
  ∧ timers (after (step e) s)
    = clear_timers (handles (filter (λ p, removes e p = true) (pendingRequests s)))
        (timers s)
  ∧ nextTimer (after (step e) s) = nextTimer s.
Proof.
  intros Hnd Hreq Hfire.
  assert (Hquiet : ∀ s', pendingRequests s' = pendingRequests s →
    timers s' = timers s → nextTimer s' = nextTimer s →
    (∀ p, removes e p = false) →
    pendingRequests s' = filter (λ p, removes e p = false) (pendingRequests s)
    ∧ timers s'
      = clear_timers (handles (filter (λ p, removes e p = true) (pendingRequests s)))
          (timers s)
    ∧ nextTimer s' = nextTimer s).
  { intros s' -> -> -> Hrem. rewrite filter_all, filter_none; [done|..];
      apply Forall_forall; intros p _; by rewrite Hrem. }
  destruct e as [c m|req r|t|dt].
  - destruct m; try (apply Hquiet; [..|done]; handler_cases; done).
    + by destruct (Hreq c r).
    + simpl. unfold after. rewrite release_host_cases. unfold get_property.
      destruct (removal_by_key requestId (pendingRequests s) (timers s) Hnd)
        as [<- ->].
      destruct (own_get requestId (pendingRequests s)) as [q|] eqn:Hget; simpl.
      * done.
      * apply own_get_None in Hget. rewrite own_delete_absent by done.
        by destruct (inherited requestId).
    + simpl. unfold after. rewrite deny_host_cases. unfold get_property.
      destruct (removal_by_key requestId (pendingRequests s) (timers s) Hnd)
        as [<- ->].
      destruct (own_get requestId (pendingRequests s)) as [q|] eqn:Hget; simpl.
      * done.
      * apply own_get_None in Hget. rewrite own_delete_absent by done.
        by destruct (inherited requestId).
    + simpl. unfold after. rewrite cancel_host_request_requests by done.
      by destruct (removal_by_requester c (pendingRequests s)) as [<- <-].
    + simpl. unfold after. rewrite disconnect_requests by done.
      destruct (removal_by_requester c (pendingRequests s)) as [<- <-].
      by destruct (strict_eq c (hostSocketId s)).
  - apply Hquiet; [..|done]; handler_cases; done.
  - by destruct (Hfire t).
  - by apply Hquiet.
Qed.

(** ** Well-formed states *)

Lemma wf_initial : wf initial.
Proof.
  split; simpl.
  - constructor.
  - intros t tm. by rewrite lookup_empty.
  - intros k r Hin. by apply elem_of_nil in Hin.
Qed.

Lemma wf_request_unique s k r1 r2 :
  wf s → (k, r1) ∈ pendingRequests s → (k, r2) ∈ pendingRequests s → r1 = r2.
Proof.
  intros [Hnd _ _] H1 H2.
  apply (own_get_elem _ _ _ Hnd) in H1, H2. congruence.
Qed.

(** Two pending requests with the same timer handle are the same request. *)
Lemma wf_handle_inj s k1 r1 k2 r2 :
  wf s → (k1, r1) ∈ pendingRequests s → (k2, r2) ∈ pendingRequests s →
  timeout r1 = timeout r2 → k1 = k2 ∧ r1 = r2.
Proof.
  intros Hwf H1 H2 Heq.
  destruct (wf_armed s Hwf k1 r1 H1) as (tm1 & Ht1 & _ & Hk1).
  destruct (wf_armed s Hwf k2 r2 H2) as (tm2 & Ht2 & _ & Hk2).
  rewrite Heq in Ht1. assert (k1 = k2) as -> by congruence.
  split; [done|]. by eapply wf_request_unique.
Qed.

Lemma wf_removal (P : string * request → bool) s s' :
  wf s →
  pendingRequests s' = filter (λ p, P p = false) (pendingRequests s) →
  timers s'
  = clear_timers (handles (filter (λ p, P p = true) (pendingRequests s))) (timers s) →
  nextTimer s' = nextTimer s →
  wf s'.
Proof.
  intros Hwf Hpr Htm Hnt. split.
  - rewrite Hpr. eapply sublist_NoDup; [apply (wf_keys s Hwf)|].
    apply fmap_sublist, sublist_filter.
  - intros t tm. rewrite Htm, lookup_clear_timers, Hnt.
    case_decide; [done|]. apply (wf_handles s Hwf).
  - intros k r. rewrite Hpr, list_elem_of_filter. intros [HP Hin].
    destruct (wf_armed s Hwf k r Hin) as (tm & Htmr & Hs & Hr).
    exists tm. split; [|done].
    rewrite Htm, lookup_clear_timers. rewrite decide_False; [done|].
    intros ([k2 r2] & Heq & Hin2)%list_elem_of_fmap. simpl in Heq.
    apply list_elem_of_filter in Hin2 as [HP2 Hin2].
    destruct (wf_handle_inj s k r k2 r2 Hwf Hin Hin2 Heq) as [-> ->].
    congruence.
Qed.

Lemma wf_same s s' :
  wf s → pendingRequests s' = pendingRequests s → timers s' = timers s →
  nextTimer s' = nextTimer s → wf s'.
Proof.
  intros [Hnd Hh Ha] Hpr Htm Hnt.
  split; rewrite ?Hpr, ?Htm, ?Hnt; done.
Qed.

Lemma wf_step e s : wf s → wf (after (step e) s).
Proof.
  intros Hwf.
  assert (Hrem : (∀ c r, e ≠ Socket c (RequestHost r)) → (∀ t, e ≠ TimerFire t) →
                 wf (after (step e) s)).
  { intros Hreq Hfire.
    destruct (step_removal e s (wf_keys s Hwf) Hreq Hfire) as (Hpr & Htm & Hnt).
    by apply (wf_removal (removes e) s). }
  destruct e as [c m|req r|t|dt]; [destruct m| | |]; try (by apply Hrem).
  - simpl. unfold after. rewrite request_host_cases.
    destruct (negb (truthy (hostSocketId s))); [by apply (wf_same s)|].
    destruct (strict_eq c (hostSocketId s)); [done|].
    simpl. split; simpl.
    + apply own_set_NoDup, (wf_keys s Hwf).
    + intros t tm. rewrite lookup_insert. case_decide; [intros _; lia|].
      intros Ht. apply (wf_handles s Hwf) in Ht. lia.
    + intros k q Hin.
      apply own_set_elem in Hin as [[-> ->]|[Hin Hne]]; [| |apply (wf_keys s Hwf)].
      * eexists. simpl. rewrite lookup_insert_eq. done.
      * destruct (wf_armed s Hwf k q Hin) as (tm & Htm & Hs & Hr).
        exists tm. split; [|done]. rewrite lookup_insert_ne; [done|].
        apply (wf_handles s Hwf) in Htm. lia.
  - simpl. unfold after. rewrite fire_cases.
    destruct (timers s !! t) as [tm|] eqn:Ht; [|done].
    case_bool_decide; [|done]. simpl. split; simpl.
    + apply own_delete_NoDup, (wf_keys s Hwf).
    + intros t' tm'. rewrite lookup_delete. case_decide; [done|].
      apply (wf_handles s Hwf).
    + intros k q [Hin Hne]%own_delete_elem.
      destruct (wf_armed s Hwf k q Hin) as (tm' & Htm' & Hs & Hr).
      exists tm'. split; [|done]. rewrite lookup_delete_ne; [done|].
      intros ->. congruence.
Qed.

Lemma wf_run es s : wf s → wf (after (run es) s).
Proof.
  revert s. induction es as [|e es IH]; intros s Hwf; [done|].
  rewrite after_run_cons. by apply IH, wf_step.
Qed.

(** Every state the server reaches is well-formed. *)
Lemma wf_reachable es : wf (after (run es) initial).
Proof. apply wf_run, wf_initial. Qed.

(** ** Disconnect *)

Lemma filter_complement_nil {B} (P : B → Prop) `{!∀ x, Decision (P x)} (l : list B) :
  filter P l = [] → filter (λ x, ¬ P x) l = l.
Proof.
  intros Hnil. apply filter_all, Forall_forall. intros x Hin HP.
  by apply (filter_nil_not_elem_of P l x).
Qed.

Lemma handle_of_request c k r (o : list (string * request)) :
  (k, r) ∈ o → requester r = c → timeout r ∈ handles (requests_of c o).
Proof.
  intros Hin Hc. apply list_elem_of_fmap. exists (k, r). split; [done|].
  by apply list_elem_of_filter.
Qed.

Lemma handle_of_other_request s c k r :
  wf s → (k, r) ∈ pendingRequests s → requester r ≠ c →
  timeout r ∉ handles (requests_of c (pendingRequests s)).
Proof.
  intros Hwf Hin Hc ([k2 r2] & Heq & [Hc2 Hin2]%list_elem_of_filter)%list_elem_of_fmap.
  simpl in *.
  destruct (wf_handle_inj s k r k2 r2 Hwf Hin Hin2 Heq) as [-> ->]. done.
Qed.

Lemma requests_not_of_get s c k r :
  wf s → (k, r) ∈ pendingRequests s →
  own_get k (requests_not_of c (pendingRequests s))
  = if decide (requester r = c) then None else Some r.
Proof.
  intros Hwf Hin. case_decide as Hc.
  - apply own_get_None.
    intros ([k2 r2] & -> & [Hc2 Hin2]%list_elem_of_filter)%list_elem_of_fmap.
    simpl in *. by rewrite (wf_request_unique s _ _ _ Hwf Hin Hin2) in Hc.
  - apply own_get_elem.
    + eapply sublist_NoDup; [apply (wf_keys s Hwf)|].
      apply fmap_sublist, sublist_filter.
    + by apply list_elem_of_filter.
Qed.

(** C4. When [H] disconnects in a well-formed state: if [H] is the host,
    the host identifier becomes [null] and the only emission is one
    host-changed carrying [null], sent to all; otherwise the host identifier
    stays and nothing is emitted. Every pending request of [H] is gone and
    its timer is no longer armed, with no emission about it; every other
    request stays, with its timer as it was. If [H] is neither the host nor
    a requester the state does not change at all. *)
Theorem disconnect_clears_host_and_requests (H : string) (s : state) :
  wf s →
  let s' := after (on H Disconnect) s in
  let out := emitted (on H Disconnect) s in
  (is_host s H →
     hostSocketId s' = VNull
     ∧ out = [Emit ToAll "host-changed" (host_changed VNull)])
  ∧ (¬ is_host s H → hostSocketId s' = hostSocketId s ∧ out = [])
  ∧ pendingRequests s' = requests_not_of H (pendingRequests s)
  ∧ (∀ k r, (k, r) ∈ pendingRequests s → requester r = H →
       own_get k (pendingRequests s') = None ∧ timers s' !! timeout r = None)
  ∧ (∀ k r, (k, r) ∈ pendingRequests s → requester r ≠ H →
       own_get k (pendingRequests s') = Some r
       ∧ timers s' !! timeout r = timers s !! timeout r)
  ∧ (¬ is_host s H → requests_of H (pendingRequests s) = [] → s' = s).
Proof.
  intros Hwf s' out.
  pose proof (disconnect_requests H s (wf_keys s Hwf)) as Hrun.
  assert (Hs' : s' = set_pendingRequests (requests_not_of H (pendingRequests s))
           (set_timers (clear_timers (handles (requests_of H (pendingRequests s)))
                          (timers s))
              (if strict_eq H (hostSocketId s) then set_hostSocketId VNull s else s))).
  { unfold s'. simpl. by rewrite (after_eq _ _ _ _ _ Hrun). }
  assert (Hout : out = if strict_eq H (hostSocketId s)
                       then [Emit ToAll "host-changed" (host_changed VNull)] else []).
  { unfold out. simpl. by rewrite (emitted_eq _ _ _ _ _ Hrun). }
  assert (Htm : timers s'
            = clear_timers (handles (requests_of H (pendingRequests s))) (timers s)).
  { rewrite Hs'. by destruct (strict_eq H (hostSocketId s)). }
  assert (Hpr : pendingRequests s' = requests_not_of H (pendingRequests s)).
  { rewrite Hs'. by destruct (strict_eq H (hostSocketId s)). }
  unfold is_host. split_and!.
  - intros Hhost. rewrite Hout, Hs', Hhost. done.
  - intros Hhost%not_true_is_false. rewrite Hout, Hs', Hhost. done.
  - done.
  - intros k r Hin Hc. rewrite Hpr, Htm, lookup_clear_timers.
    rewrite (requests_not_of_get s H k r) by done.
    pose proof (handle_of_request H k r _ Hin Hc) as Hh.
    by rewrite !decide_True by done.
  - intros k r Hin Hc. rewrite Hpr, Htm, lookup_clear_timers.
    rewrite (requests_not_of_get s H k r) by done.
    pose proof (handle_of_other_request s H k r Hwf Hin Hc) as Hh.
    by rewrite !decide_False by done.
  - intros Hhost%not_true_is_false Hnone. rewrite Hs', Hhost, Hnone.
    unfold requests_not_of. rewrite filter_complement_nil by done.
    by destruct s.
Qed.

(** Socket B asked for the host role and then registered as host; when it
    disconnects, the host is cleared with one announcement and its request
    and timer are gone. *)
Lemma disconnect_clears_host_and_requests_witness :
  let s := after (run [Socket "A" RegisterHost; Socket "B" (RequestHost 5);
                       Socket "B" RegisterHost]) initial in
  let s' := after (on "B" Disconnect) s in
  is_host s "B"
  ∧ pendingRequests s = [(uuidv4 5, Request 0 "B")]
  ∧ hostSocketId s' = VNull
  ∧ emitted (on "B" Disconnect) s = [Emit ToAll "host-changed" (host_changed VNull)]
  ∧ own_get (uuidv4 5) (pendingRequests s') = None
  ∧ timers s' !! 0 = None.
Proof.
  intros s s'.
  assert (Hhost : is_host s "B") by reflexivity.
  assert (Hpr : pendingRequests s = [(uuidv4 5, Request 0 "B")]) by reflexivity.
  destruct (disconnect_clears_host_and_requests "B" s (wf_reachable _))
    as (Hcleared & _ & _ & Hgone & _).
  destruct (Hcleared Hhost) as [Hnull Hout].
  destruct (Hgone (uuidv4 5) (Request 0 "B")) as [Hget Htimer];
    [rewrite Hpr; apply list_elem_of_here|reflexivity|].
  by split_and!.
Defined.

(** ** Timers *)

(** A handle that was handed out and is not armed is never armed again. *)
Lemma unarmed_step e s t :
  wf s → t < nextTimer s → timers s !! t = None →
  t < nextTimer (after (step e) s) ∧ timers (after (step e) s) !! t = None.
Proof.
  intros Hwf Hlt Hnone.
  assert (Hrem : (∀ c r, e ≠ Socket c (RequestHost r)) → (∀ t, e ≠ TimerFire t) →
    t < nextTimer (after (step e) s) ∧ timers (after (step e) s) !! t = None).
  { intros Hreq Hfire.
    destruct (step_removal e s (wf_keys s Hwf) Hreq Hfire) as (_ & -> & ->).
    split; [done|]. rewrite lookup_clear_timers. by case_decide. }
  destruct e as [c m|req r|t'|dt]; [destruct m| | |]; try (by apply Hrem).
  - simpl. unfold after. rewrite request_host_cases.
    destruct (negb (truthy (hostSocketId s))); [done|].
    destruct (strict_eq c (hostSocketId s)); [done|].
    simpl. split; [lia|]. rewrite lookup_insert_ne; [done|lia].
  - simpl. unfold after. rewrite fire_cases.
    destruct (timers s !! t') as [tm|] eqn:Ht; [|done].
    case_bool_decide; [|done]. simpl. split; [done|].
    rewrite lookup_delete. by case_decide.
Qed.

Lemma unarmed_run es s t :
  wf s → t < nextTimer s → timers s !! t = None →
  timers (after (run es) s) !! t = None.
Proof.
  revert s. induction es as [|e es IH]; intros s Hwf Hlt Hnone; [done|].
  rewrite after_run_cons.
  destruct (unarmed_step e s t Hwf Hlt Hnone) as [Hlt' Hnone'].
  by apply IH; [apply wf_step|..].
Qed.

(** A timer stays armed through an event that keeps its request. *)
Lemma armed_step B rid tid tm e s :
  wf s → timers s !! tid = Some tm →
  timer_socket tm = B → timer_request tm = rid →
  keeps B rid tid e = true →
  timers (after (step e) s) !! tid = Some tm.
Proof.
  intros Hwf Harmed HB Hrid [Hkeep Hnot]%andb_true_iff.
  apply negb_true_iff in Hkeep, Hnot.
  assert (Hrem : (∀ c r, e ≠ Socket c (RequestHost r)) → (∀ t, e ≠ TimerFire t) →
    timers (after (step e) s) !! tid = Some tm).
  { intros Hreq Hfire.
    destruct (step_removal e s (wf_keys s Hwf) Hreq Hfire) as (_ & -> & _).
    rewrite lookup_clear_timers. rewrite decide_False; [done|].
    intros ([k q] & Heq & [Hq Hin]%list_elem_of_filter)%list_elem_of_fmap.
    simpl in Heq.
    destruct (wf_armed s Hwf k q Hin) as (tm' & Htm' & Hs & Hr).
    rewrite <- Heq in Htm'. simplify_eq.
    destruct q as [tq rq]; simpl in *. congruence. }
  destruct e as [c m|req r|t'|dt]; [destruct m| | |]; try (by apply Hrem).
  - simpl. unfold after. rewrite request_host_cases.
    destruct (negb (truthy (hostSocketId s))); [done|].
    destruct (strict_eq c (hostSocketId s)); [done|].
    simpl. rewrite lookup_insert_ne; [done|].
    apply (wf_handles s Hwf) in Harmed. lia.
  - simpl. unfold after. rewrite fire_cases.
    apply bool_decide_eq_false in Hnot.
    destruct (timers s !! t') as [tm'|] eqn:Ht; [|done].
    case_bool_decide; [|done]. simpl. by rewrite lookup_delete_ne.
Qed.

Lemma armed_run B rid tid tm es s :
  wf s → timers s !! tid = Some tm →
  timer_socket tm = B → timer_request tm = rid →
  forallb (keeps B rid tid) es = true →
  timers (after (run es) s) !! tid = Some tm.
Proof.
  revert s. induction es as [|e es IH]; intros s Hwf Harmed HB Hrid Hes; [done|].
  simpl in Hes. apply andb_true_iff in Hes as [He Hes].
  rewrite after_run_cons. apply IH; try done; [by apply wf_step|].
  by apply (armed_step B rid).
Qed.

(** ** Cancelling a request *)

Lemma cancelled_notes A (o : list (string * request)) :
  A ≠ "" →
  o ≫= (λ p, cancelled_note p.1 (VStr A))
  = (λ p, host_request_cancelled A p.1) <$> o.
Proof.
  intros HA. induction o as [|p o IH]; [done|].
  rewrite fmap_cons, <- IH. rewrite bind_cons. f_equal.
  unfold cancelled_note. simpl. by rewrite bool_decide_eq_false_2.
Qed.

(** C8. In a well-formed state whose host is [A], cancel-host-request from
    [B] leaves the host identifier at [A], removes exactly the pending
    requests of [B], and emits one host-request-cancelled per removed
    request, in order, each addressed to [A] alone. The timer of every
    removed request is disarmed at once and stays disarmed through any later
    events, so its callback never runs: asking the runtime to fire it is
    without effect. *)
Theorem cancel_before_deadline (A B : string) (s : state) :
  wf s → hostSocketId s = VStr A → A ≠ "" →
  let s' := after (on B CancelHostRequest) s in
  hostSocketId s' = VStr A
  ∧ pendingRequests s' = requests_not_of B (pendingRequests s)
  ∧ emitted (on B CancelHostRequest) s
    = (λ p, host_request_cancelled A p.1) <$> requests_of B (pendingRequests s)
  ∧ (∀ conns c, c ∈ recipients conns (ToRoom (VStr A)) ↔ c ∈ conns ∧ c = A)
  ∧ (∀ k r, (k, r) ∈ pendingRequests s → requester r = B →
       own_get k (pendingRequests s') = None
       ∧ timers s' !! timeout r = None
       ∧ ∀ es, timers (after (run es) s') !! timeout r = None
               ∧ step (TimerFire (timeout r)) (after (run es) s')
                 = ((), after (run es) s', [])).
Proof.
  intros Hwf Hhost HA s'.
  pose proof (cancel_host_request_requests B s (wf_keys s Hwf)) as Hrun.
  rewrite Hhost, cancelled_notes in Hrun by done.
  assert (Hs' : s' = set_pendingRequests (requests_not_of B (pendingRequests s))
           (set_timers (clear_timers (handles (requests_of B (pendingRequests s)))
                          (timers s)) s)).
  { unfold s'. simpl. by rewrite (after_eq _ _ _ _ _ Hrun). }
  assert (Hwf' : wf s').
  { unfold s'. apply (wf_step (Socket B CancelHostRequest)), Hwf. }
  split_and!.
  - by rewrite Hs'.
  - by rewrite Hs'.
  - simpl. by rewrite (emitted_eq _ _ _ _ _ Hrun).
  - intros conns c. apply recipients_room.
  - intros k r Hin Hc.
    assert (Hnone : timers s' !! timeout r = None).
    { rewrite Hs'. simpl. rewrite lookup_clear_timers.
      pose proof (handle_of_request B k r _ Hin Hc) as Hh.
      by rewrite decide_True by done. }
    assert (Hlt : timeout r < nextTimer s').
    { rewrite Hs'. simpl.
      destruct (wf_armed s Hwf k r Hin) as (tm & Htm & _).
      by apply (wf_handles s Hwf) in Htm. }
    split_and!.
    + rewrite Hs'. simpl. rewrite (requests_not_of_get s B k r) by done.
      by rewrite decide_True by done.
    + done.
    + intros es.
      pose proof (unarmed_run es s' (timeout r) Hwf' Hlt Hnone) as Hlater.
      split; [done|]. simpl. rewrite fire_cases. by rewrite Hlater.
Qed.

(** Socket B asked for the host role while A was host and then cancels:
    A stays host and is told, and the timer never runs, also after the
    thirty seconds. *)
Lemma cancel_before_deadline_witness :
  let s := after (run [Socket "A" RegisterHost; Socket "B" (RequestHost 5)]) initial in
  let s' := after (on "B" CancelHostRequest) s in
  pendingRequests s = [(uuidv4 5, Request 0 "B")]
  ∧ hostSocketId s' = VStr "A"
  ∧ pendingRequests s' = []
  ∧ emitted (on "B" CancelHostRequest) s = [host_request_cancelled "A" (uuidv4 5)]
  ∧ timers s' !! 0 = None
  ∧ step (TimerFire 0) (after (run [Elapse 30000]) s')
    = ((), after (run [Elapse 30000]) s', []).
Proof.
  intros s s'.
  assert (Hpr : pendingRequests s = [(uuidv4 5, Request 0 "B")]) by reflexivity.
  destruct (cancel_before_deadline "A" "B" s) as (Hhost & Hrest & Hout & _ & Hgone).
  - apply wf_reachable.
  - reflexivity.
  - discriminate.
  - destruct (Hgone (uuidv4 5) (Request 0 "B")) as (_ & Htimer & Hnever);
      [rewrite Hpr; apply list_elem_of_here|reflexivity|].
    destruct (Hnever [Elapse 30000]) as [_ Hfire].
    split_and!; [done|done| | |done|done].
    + etrans; [exact Hrest|]. by rewrite Hpr.
    + etrans; [exact Hout|]. by rewrite Hpr.
Defined.

(** ** The deadline of a request *)

(** The key of a pending request was pending before the event, or is the
    identifier that [uuidv4] makes of the random number of this event. *)
Lemma drawn_step e s k :
  wf s → k ∈ (pendingRequests (after (step e) s)).*1 →
  k ∈ (pendingRequests s).*1 ∨ ∃ r, r ∈ draw e ∧ k = uuidv4 r.
Proof.
  intros Hwf.
  assert (Hrem : (∀ c r, e ≠ Socket c (RequestHost r)) → (∀ t, e ≠ TimerFire t) →
    k ∈ (pendingRequests (after (step e) s)).*1 →
    k ∈ (pendingRequests s).*1 ∨ ∃ r, r ∈ draw e ∧ k = uuidv4 r).
  { intros Hreq Hfire.
    destruct (step_removal e s (wf_keys s Hwf) Hreq Hfire) as (-> & _ & _).
    intros (p & -> & [_ Hin]%list_elem_of_filter)%list_elem_of_fmap.
    left. apply list_elem_of_fmap. by exists p. }
  destruct e as [c m|req r|t'|dt]; [destruct m| | |]; try (by apply Hrem).
  - simpl. unfold after. rewrite request_host_cases.
    destruct (negb (truthy (hostSocketId s))); [by left|].
    destruct (strict_eq c (hostSocketId s)); [by left|].
    simpl. rewrite own_set_keys. case_decide; [by left|].
    intros [Hin| ->%list_elem_of_singleton]%elem_of_app; [by left|].
    right. exists r. split; [apply list_elem_of_here|done].
  - simpl. unfold after. rewrite fire_cases.
    destruct (timers s !! t') as [tm'|] eqn:Ht; [|by left].
    case_bool_decide; [|by left]. simpl. rewrite own_delete_keys.
    intros [_ Hin]%list_elem_of_filter. by left.
Qed.

Lemma drawn_run es s k :
  wf s → k ∈ (pendingRequests (after (run es) s)).*1 →
  k ∈ (pendingRequests s).*1 ∨ ∃ r, r ∈ request_draws es ∧ k = uuidv4 r.
Proof.
  revert s. induction es as [|e es IH]; intros s Hwf Hin; [by left|].
  rewrite after_run_cons in Hin. unfold request_draws. rewrite bind_cons.
  destruct (IH _ (wf_step e s Hwf) Hin) as [Hold|(r & Hr & ->)].
  - destruct (drawn_step e s k Hwf Hold) as [?|(r & Hr & ->)]; [by left|].
    right. exists r. split; [|done]. apply elem_of_app. by left.
  - right. exists r. split; [|done]. apply elem_of_app. by right.
Qed.

(** C2. After any run [pre] of the server that leaves [A] as host, a
    request-host from another connection [B] stores one request under the
    identifier that [uuidv4] makes of the random number [r], arms a timer of
    30000 ms for it, leaves the host at [A] and notifies [A] alone with the
    identifier and the requester; the keys of the pending requests stay
    distinct. The identifier is fresh whenever the random bits of [r] differ
    from those of every earlier request-host of the run: it then differs
    from every identifier drawn before and names no pending request, and the
    request is queued behind the pending ones. Through any later events that
    keep the request (no release-host or deny-host naming it, no
    cancel-host-request or disconnect of [B]), once 30000 ms have passed the
    timer runs when the runtime fires it: the host becomes [B] whatever it
    was, host-changed with [B] goes to all, and the request and the timer
    are gone. Before that time the timer does not run. *)
Theorem auto_grant_on_timeout (A B : string) (r : N) (pre es : list event) :
  hostSocketId (after (run pre) initial) = VStr A → A ≠ "" → A ≠ B →
  let s := after (run pre) initial in
  let rid := uuidv4 r in
  let tid := nextTimer s in
  let s1 := after (on B (RequestHost r)) s in
  let s2 := after (run es) s1 in
  let s3 := after (step (TimerFire tid)) s2 in
  own_get rid (pendingRequests s1) = Some (Request tid B)
  ∧ NoDup (pendingRequests s1).*1
  ∧ ((∀ r', r' ∈ request_draws pre → random_bits r' ≠ random_bits r) →
       (∀ r', r' ∈ request_draws pre → uuidv4 r' ≠ rid)
       ∧ own_get rid (pendingRequests s) = None
       ∧ pendingRequests s1 = pendingRequests s ++ [(rid, Request tid B)])
  ∧ timers s1 = <[tid := Timer 30000 (clock s + 30000) B rid]> (timers s)
  ∧ hostSocketId s1 = VStr A
  ∧ emitted (on B (RequestHost r)) s = [host_transfer_request A rid B]
  ∧ (∀ conns c, c ∈ recipients conns (ToRoom (VStr A)) ↔ c ∈ conns ∧ c = A)
  ∧ (forallb (keeps B rid tid) es = true →
       ((clock s + 30000 ≤ clock s2)%N →
          hostSocketId s3 = VStr B
          ∧ emitted (step (TimerFire tid)) s2
            = [Emit ToAll "host-changed" (host_changed (VStr B))]
          ∧ own_get rid (pendingRequests s3) = None
          ∧ timers s3 !! tid = None)
       ∧ ((clock s2 < clock s + 30000)%N →
            step (TimerFire tid) s2 = ((), s2, []))).
Proof.
  intros Hhost HA HAB s rid tid s1 s2 s3.
  pose proof (wf_reachable pre : wf s) as Hwf.
  pose proof (request_host_cases B r s) as Hrun.
  fold s in Hhost. rewrite Hhost in Hrun. simpl in Hrun.
  rewrite (bool_decide_eq_false_2 (A = "")) in Hrun by done.
  rewrite (bool_decide_eq_false_2 (B = A)) in Hrun by congruence.
  simpl in Hrun. fold rid tid in Hrun.
  assert (Hs1 : s1 = set_pendingRequests
                       (own_set rid (Request tid B) (pendingRequests s))
           (set_nextTimer (S tid)
              (set_timers (<[tid := Timer 30000 (clock s + 30000) B rid]> (timers s)) s))).
  { unfold s1. simpl. by rewrite (after_eq _ _ _ _ _ Hrun). }
  assert (Hdistinct : (∀ r', r' ∈ request_draws pre → random_bits r' ≠ random_bits r) →
                      ∀ r', r' ∈ request_draws pre → uuidv4 r' ≠ rid).
  { intros Hbits r' Hr' Heq%uuidv4_inj. by apply (Hbits r'). }
  split_and!.
  - rewrite Hs1. simpl. rewrite own_get_own_set. by rewrite bool_decide_eq_true_2.
  - rewrite Hs1. simpl. apply own_set_NoDup, (wf_keys s Hwf).
  - intros Hbits.
    assert (Hfresh : own_get rid (pendingRequests s) = None).
    { apply own_get_None. intros Hin.
      destruct (drawn_run pre initial rid wf_initial Hin) as [Hnil|(r' & Hr' & Heq)].
      - by apply elem_of_nil in Hnil.
      - by apply (Hdistinct Hbits r'). }
    split_and!; [by apply Hdistinct|done|].
    rewrite Hs1. simpl. by apply own_set_fresh.
  - by rewrite Hs1.
  - by rewrite Hs1.
  - simpl. by rewrite (emitted_eq _ _ _ _ _ Hrun).
  - intros conns c. apply recipients_room.
  - intros Hes.
    assert (Harmed : timers s2 !! tid
                     = Some (Timer 30000 (clock s + 30000) B rid)).
    { apply (armed_run B rid); try done.
      - apply (wf_step (Socket B (RequestHost r))), Hwf.
      - rewrite Hs1. simpl. by rewrite lookup_insert_eq. }
    pose proof (fire_cases tid s2) as Hfire. rewrite Harmed in Hfire. simpl in Hfire.
    change (fire tid s2) with (step (TimerFire tid) s2) in Hfire.
    split.
    + intros Hdue. rewrite bool_decide_eq_true_2 in Hfire by done.
      unfold s3. rewrite (after_eq _ _ _ _ _ Hfire), (emitted_eq _ _ _ _ _ Hfire).
      simpl. split_and!; [done|done|apply own_get_delete|apply lookup_delete_eq].
    + intros Hearly. rewrite bool_decide_eq_false_2 in Hfire by lia. done.
Qed.

(** A is host and D is waiting. Socket B asks, with random bits other than
    those of D's request; C asks and cancels, A moves a model, thirty seconds
    pass, and the timer of B's request fires: B is host. *)
Lemma auto_grant_on_timeout_witness :
  let pre := [Socket "A" RegisterHost; Socket "D" (RequestHost 7)] in
  let es := [Socket "C" (RequestHost 6); Socket "A" (ModelTransform VNull);
             Socket "C" CancelHostRequest; Elapse 30000] in
  let s := after (run pre) initial in
  let s1 := after (on "B" (RequestHost 5)) s in
  let s2 := after (run es) s1 in
  let s3 := after (step (TimerFire 1)) s2 in
  uuidv4 5 = "00000000-0000-4000-8000-000000000005"
  ∧ own_get (uuidv4 5) (pendingRequests s) = None
  ∧ pendingRequests s1 = [(uuidv4 7, Request 0 "D"); (uuidv4 5, Request 1 "B")]
  ∧ emitted (on "B" (RequestHost 5)) s = [host_transfer_request "A" (uuidv4 5) "B"]
  ∧ hostSocketId s2 = VStr "A"
  ∧ hostSocketId s3 = VStr "B"
  ∧ emitted (step (TimerFire 1)) s2
    = [Emit ToAll "host-changed" (host_changed (VStr "B"))]
  ∧ own_get (uuidv4 5) (pendingRequests s3) = None
  ∧ timers s3 !! 1 = None.
Proof.
  intros pre es s s1 s2 s3.
  destruct (auto_grant_on_timeout "A" "B" 5 pre es)
    as (_ & _ & Hfresh & _ & _ & Hout & _ & Hdeadline).
  - reflexivity.
  - discriminate.
  - discriminate.
  - destruct Hfresh as (_ & Hnone & Hpr).
    { intros r' ->%list_elem_of_singleton. by vm_compute. }
    destruct Hdeadline as [Hfires _]; [reflexivity|].
    destruct Hfires as (Hhost & Hchanged & Hgone & Htimer); [by vm_compute|].
    split_and!; done.
Defined.

(** ** One host, announced to all *)

Lemma announced_other (name : string) h out :
  name ≠ "host-changed" →
  Forall (λ e, em_event e = name) out → announced h out = h.
Proof.
  intros Hname Hout. induction Hout as [|e out He _ IH]; [done|].
  unfold announced in *. cbn [foldl]. rewrite <- IH at 2. f_equal.
  unfold announce. destruct (em_target e); try done.
  destruct (em_payload e) as [| | | | | |[|[field v] [|]]|]; try done.
  rewrite bool_decide_eq_false_2; [done|]. intros [? _]. congruence.
Qed.

(** Every event leaves the host identifier equal to what the clients have
    been told. *)
Lemma announced_step e s :
  wf s →
  announced (hostSocketId s) (emitted (step e) s) = hostSocketId (after (step e) s).
Proof.
  intros Hwf.
  destruct e as [c m|req r|t|dt]; [destruct m| | |];
    try (handler_cases; done).
  - simpl.
    pose proof (cancel_host_request_requests c s (wf_keys s Hwf)) as Hrun.
    rewrite (emitted_eq _ _ _ _ _ Hrun), (after_eq _ _ _ _ _ Hrun). simpl.
    apply (announced_other "host-request-cancelled"); [done|]. clear Hrun.
    induction (requests_of c (pendingRequests s)) as [|p o IH]; [constructor|].
    rewrite bind_cons. apply Forall_app. split; [|done].
    unfold cancelled_note. case_match; by repeat constructor.
  - simpl.
    pose proof (disconnect_requests c s (wf_keys s Hwf)) as Hrun.
    rewrite (emitted_eq _ _ _ _ _ Hrun), (after_eq _ _ _ _ _ Hrun). simpl.
    by destruct (strict_eq c (hostSocketId s)).
Qed.

Lemma announced_run es s :
  wf s →
  announced (hostSocketId s) (emitted (run es) s) = hostSocketId (after (run es) s).
Proof.
  revert s. induction es as [|e es IH]; intros s Hwf; [done|].
  rewrite emitted_run_cons, after_run_cons. unfold announced.
  rewrite foldl_app. fold (announced (hostSocketId s) (emitted (step e) s)).
  rewrite announced_step by done. by apply IH, wf_step.
Qed.

(** C5. After any finite sequence of events (arbitration messages, timers
    firing, disconnects, and everything else the server handles) the host
    identifier is one value: two connections that both pass the host test
    are the same connection, and among any collection of distinct
    connections at most one passes it. That value is the one the last
    host-changed event announced to all ([null] when there was none). *)
Theorem single_host (es : list event) :
  (∀ c1 c2, is_host (after (run es) initial) c1 →
            is_host (after (run es) initial) c2 → c1 = c2)
  ∧ (∀ conns, NoDup conns →
              length (filter (is_host (after (run es) initial)) conns) ≤ 1)
  ∧ announced VNull (emitted (run es) initial)
    = hostSocketId (after (run es) initial).
Proof.
  split_and!.
  - intros c1 c2 H1 H2. apply strict_eq_true in H1, H2. congruence.
  - intros conns Hnd.
    exact (at_most_one_strict_eq (hostSocketId (after (run es) initial)) conns Hnd).
  - apply (announced_run es initial), wf_initial.
Qed.

(** * Further properties *)

(** ** Granting and denying a request *)

(** A handle that was handed out and is not armed never runs a callback. *)
Lemma disarmed_forever s t es :
  wf s → t < nextTimer s → timers s !! t = None →
  step (TimerFire t) (after (run es) s) = ((), after (run es) s, []).
Proof.
  intros Hwf Hlt Hnone. simpl. rewrite fire_cases.
  by rewrite (unarmed_run es s t Hwf Hlt Hnone).
Qed.

Lemma pending_handle_lt s k r :
  wf s → own_get k (pendingRequests s) = Some r → timeout r < nextTimer s.
Proof.
  intros Hwf Hget. apply own_get_Some_in in Hget.
  destruct (wf_armed s Hwf k r Hget) as (tm & Htm & _).
  by apply (wf_handles s Hwf) in Htm.
Qed.

(** X1. release-host naming a pending request, from whichever socket,
    makes the requester the host and tells all; the request is gone while
    every other request and timer stays as it was, and the timer of the
    granted request never runs its callback afterwards. *)
Theorem release_host_grants (c k : string) (r : request) (s : state) :
  wf s → own_get k (pendingRequests s) = Some r →
  let s' := after (on c (ReleaseHost k)) s in
  hostSocketId s' = VStr (requester r)
  ∧ emitted (on c (ReleaseHost k)) s
    = [Emit ToAll "host-changed" (host_changed (VStr (requester r)))]
  ∧ own_get k (pendingRequests s') = None
  ∧ (∀ k', k' ≠ k → own_get k' (pendingRequests s') = own_get k' (pendingRequests s))
  ∧ (∀ t, t ≠ timeout r → timers s' !! t = timers s !! t)
  ∧ (∀ es, step (TimerFire (timeout r)) (after (run es) s')
           = ((), after (run es) s', [])).
Proof.
  intros Hwf Hget s'.
  pose proof (release_host_cases k s) as Hrun.
  unfold get_property in Hrun. rewrite Hget in Hrun.
  assert (Hs' : s' = set_pendingRequests (own_delete k (pendingRequests s))
           (set_hostSocketId (VStr (requester r))
              (set_timers (delete (timeout r) (timers s)) s))).
  { unfold s'. simpl. by rewrite (after_eq _ _ _ _ _ Hrun). }
  assert (Hwf' : wf s').
  { unfold s'. apply (wf_step (Socket c (ReleaseHost k))), Hwf. }
  split_and!.
  - by rewrite Hs'.
  - simpl. by rewrite (emitted_eq _ _ _ _ _ Hrun).
  - rewrite Hs'. apply own_get_delete.
  - intros k' Hne. rewrite Hs'. by apply own_get_delete_ne.
  - intros t Hne. rewrite Hs'. simpl. by rewrite lookup_delete_ne.
  - intros es. apply disarmed_forever; [done| |].
    + rewrite Hs'. simpl. by eapply pending_handle_lt.
    + rewrite Hs'. simpl. apply lookup_delete_eq.
Qed.

(** Socket B asked while A was host and A releases: B is host at once and
    the timer of the request is of no effect later. *)
Lemma release_host_grants_witness :
  let s := after (run [Socket "A" RegisterHost; Socket "B" (RequestHost 5)]) initial in
  let s' := after (on "A" (ReleaseHost (uuidv4 5))) s in
  hostSocketId s = VStr "A"
  ∧ hostSocketId s' = VStr "B"
  ∧ emitted (on "A" (ReleaseHost (uuidv4 5))) s
    = [Emit ToAll "host-changed" (host_changed (VStr "B"))]
  ∧ pendingRequests s' = []
  ∧ step (TimerFire 0) (after (run [Elapse 30000]) s')
    = ((), after (run [Elapse 30000]) s', []).
Proof.
  intros s s'.
  destruct (release_host_grants "A" (uuidv4 5) (Request 0 "B") s)
    as (Hhost & Hout & _ & _ & _ & Hnever).
  - apply wf_reachable.
  - reflexivity.
  - split_and!; [reflexivity|exact Hhost|exact Hout|reflexivity|].
    exact (Hnever [Elapse 30000]).
Defined.

(** X2. deny-host naming a pending request, from whichever socket, leaves
    the host as it is and sends transfer-denied with the identifier to the
    requester alone; the request is gone while every other request and timer
    stays as it was, and the timer of the denied request never runs its
    callback afterwards. *)
Theorem deny_host_refuses (c k : string) (r : request) (s : state) :
  wf s → own_get k (pendingRequests s) = Some r →
  let s' := after (on c (DenyHost k)) s in
  hostSocketId s' = hostSocketId s
  ∧ emitted (on c (DenyHost k)) s
    = [Emit (ToRoom (VStr (requester r))) "transfer-denied"
            (VObj [("requestId", VStr k)])]
  ∧ (∀ conns d, d ∈ recipients conns (ToRoom (VStr (requester r)))
                ↔ d ∈ conns ∧ d = requester r)
  ∧ own_get k (pendingRequests s') = None
  ∧ (∀ k', k' ≠ k → own_get k' (pendingRequests s') = own_get k' (pendingRequests s))
  ∧ (∀ t, t ≠ timeout r → timers s' !! t = timers s !! t)
  ∧ (∀ es, step (TimerFire (timeout r)) (after (run es) s')
           = ((), after (run es) s', [])).
Proof.
  intros Hwf Hget s'.
  pose proof (deny_host_cases k s) as Hrun.
  unfold get_property in Hrun. rewrite Hget in Hrun.
  assert (Hs' : s' = set_pendingRequests (own_delete k (pendingRequests s))
           (set_timers (delete (timeout r) (timers s)) s)).
  { unfold s'. simpl. by rewrite (after_eq _ _ _ _ _ Hrun). }
  assert (Hwf' : wf s').
  { unfold s'. apply (wf_step (Socket c (DenyHost k))), Hwf. }
  split_and!.
  - by rewrite Hs'.
  - simpl. by rewrite (emitted_eq _ _ _ _ _ Hrun).
  - intros conns d. apply recipients_room.
  - rewrite Hs'. apply own_get_delete.
  - intros k' Hne. rewrite Hs'. by apply own_get_delete_ne.
  - intros t Hne. rewrite Hs'. simpl. by rewrite lookup_delete_ne.
  - intros es. apply disarmed_forever; [done| |].
    + rewrite Hs'. simpl. by eapply pending_handle_lt.
    + rewrite Hs'. simpl. apply lookup_delete_eq.
Qed.

(** Socket B asked while A was host and A denies: A stays host, B alone is
    told, and thirty seconds later the timer is of no effect. *)
Lemma deny_host_refuses_witness :
  let s := after (run [Socket "A" RegisterHost; Socket "B" (RequestHost 5)]) initial in
  let s' := after (on "A" (DenyHost (uuidv4 5))) s in
  hostSocketId s' = VStr "A"
  ∧ emitted (on "A" (DenyHost (uuidv4 5))) s
    = [Emit (ToRoom (VStr "B")) "transfer-denied"
            (VObj [("requestId", VStr (uuidv4 5))])]
  ∧ pendingRequests s' = []
  ∧ step (TimerFire 0) (after (run [Elapse 30000]) s')
    = ((), after (run [Elapse 30000]) s', []).
Proof.
  intros s s'.
  destruct (deny_host_refuses "A" (uuidv4 5) (Request 0 "B") s)
    as (Hhost & Hout & _ & _ & _ & _ & Hnever).
  - apply wf_reachable.
  - reflexivity.
  - split_and!; [exact Hhost|exact Hout|reflexivity|].
    exact (Hnever [Elapse 30000]).
Defined.

(** ** Cancelling without a host, and handing the role over *)

Lemma cancelled_notes_none h (o : list (string * request)) :
  truthy h = false → o ≫= (λ p, cancelled_note p.1 h) = [].
Proof.
  intros Hh. induction o as [|p o IH]; [done|].
  rewrite bind_cons, IH. unfold cancelled_note. by rewrite Hh.
Qed.

(** X3. When no host is set (the identifier is [null], [undefined] or
    empty), cancel-host-request still removes the requests of the sender and
    disarms their timers, but tells nobody. *)
Theorem cancel_without_host (B : string) (s : state) :
  wf s → truthy (hostSocketId s) = false →
  let s' := after (on B CancelHostRequest) s in
  emitted (on B CancelHostRequest) s = []
  ∧ hostSocketId s' = hostSocketId s
  ∧ pendingRequests s' = requests_not_of B (pendingRequests s)
  ∧ (∀ k r, (k, r) ∈ pendingRequests s → requester r = B →
       timers s' !! timeout r = None).
Proof.
  intros Hwf Hhost s'.
  pose proof (cancel_host_request_requests B s (wf_keys s Hwf)) as Hrun.
  rewrite cancelled_notes_none in Hrun by done.
  assert (Hs' : s' = set_pendingRequests (requests_not_of B (pendingRequests s))
           (set_timers (clear_timers (handles (requests_of B (pendingRequests s)))
                          (timers s)) s)).
  { unfold s'. simpl. by rewrite (after_eq _ _ _ _ _ Hrun). }
  split_and!.
  - simpl. by rewrite (emitted_eq _ _ _ _ _ Hrun).
  - by rewrite Hs'.
  - by rewrite Hs'.
  - intros k r Hin Hc. rewrite Hs'. simpl. rewrite lookup_clear_timers.
    pose proof (handle_of_request B k r _ Hin Hc) as Hh.
    by rewrite decide_True by done.
Qed.

(** Socket B asked while A was host, A gave the role up, and B cancels:
    nothing is sent and the request is gone. *)
Lemma cancel_without_host_witness :
  let s := after (run [Socket "A" RegisterHost; Socket "B" (RequestHost 5);
                       Socket "A" GiveUpHost]) initial in
  let s' := after (on "B" CancelHostRequest) s in
  pendingRequests s = [(uuidv4 5, Request 0 "B")]
  ∧ hostSocketId s = VNull
  ∧ emitted (on "B" CancelHostRequest) s = []
  ∧ pendingRequests s' = []
  ∧ timers s' !! 0 = None.
Proof.
  intros s s'.
  destruct (cancel_without_host "B" s) as (Hout & _ & Hpr & Htimer).
  - apply wf_reachable.
  - reflexivity.
  - split_and!; [reflexivity|reflexivity|exact Hout|exact Hpr|].
    apply (Htimer (uuidv4 5) (Request 0 "B")); [|reflexivity].
    apply list_elem_of_here.
Defined.

(** X4. Giving the role up does not touch the pending requests: after the
    host gives up, a request-host from any socket is granted at once, with
    the two announcements and without a new request or timer, and the
    requests and timers that were pending are all still there. *)
Theorem give_up_then_request (A B : string) (r : N) (s : state) :
  hostSocketId s = VStr A →
  run [Socket A GiveUpHost; Socket B (RequestHost r)] s
  = ((), set_hostSocketId (VStr B) s,
     [Emit ToAll "host-changed" (host_changed VNull);
      Emit ToAll "host-changed" (host_changed (VStr B))]).
Proof.
  intros Hhost. destruct s as [h pr bufs tms nt clk]. simpl in Hhost. subst h.
  unfold run, step, on, give_up_host, request_host.
  unfold mbind, handler_bind, gets, modify, emit, when, mret, handler_ret. simpl.
  by rewrite bool_decide_eq_true_2.
Qed.

Lemma give_up_then_request_witness :
  let s := after (run [Socket "A" RegisterHost; Socket "C" (RequestHost 6)]) initial in
  hostSocketId s = VStr "A"
  ∧ run [Socket "A" GiveUpHost; Socket "B" (RequestHost 5)] s
    = ((), set_hostSocketId (VStr "B") s,
       [Emit ToAll "host-changed" (host_changed VNull);
        Emit ToAll "host-changed" (host_changed (VStr "B"))])
  ∧ pendingRequests (set_hostSocketId (VStr "B") s) = [(uuidv4 6, Request 0 "C")].
Proof.
  intros s. split_and!; [reflexivity| |reflexivity].
  apply (give_up_then_request "A" "B" 5 s). reflexivity.
Defined.

(** ** What every reachable state satisfies *)

Lemma step_clock e s :
  wf s →
  clock (after (step e) s)
  = match e with Elapse dt => (clock s + dt)%N | _ => clock s end.
Proof.
  intros Hwf.
  destruct e as [c m|req r|t|dt]; [destruct m| | |];
    try (handler_cases; done).
  - simpl. by rewrite (after_eq _ _ _ _ _
                         (cancel_host_request_requests c s (wf_keys s Hwf))).
  - simpl. rewrite (after_eq _ _ _ _ _ (disconnect_requests c s (wf_keys s Hwf))).
    by destruct (strict_eq c (hostSocketId s)).
Qed.

(** An armed timer was armed before the event, or is the one a request-host
    has just armed for thirty seconds. *)
Lemma step_timers e s t tm :
  wf s → timers (after (step e) s) !! t = Some tm →
  timers s !! t = Some tm
  ∨ (delay tm = 30000%N ∧ due tm = (clock s + 30000)%N).
Proof.
  intros Hwf.
  assert (Hrem : (∀ c r, e ≠ Socket c (RequestHost r)) → (∀ t, e ≠ TimerFire t) →
    timers (after (step e) s) !! t = Some tm → timers s !! t = Some tm
    ∨ (delay tm = 30000%N ∧ due tm = (clock s + 30000)%N)).
  { intros Hreq Hfire.
    destruct (step_removal e s (wf_keys s Hwf) Hreq Hfire) as (_ & -> & _).
    rewrite lookup_clear_timers. case_decide; [done|]. by left. }
  destruct e as [c m|req r|t'|dt]; [destruct m| | |]; try (by apply Hrem).
  - simpl. unfold after. rewrite request_host_cases.
    destruct (negb (truthy (hostSocketId s))); [by left|].
    destruct (strict_eq c (hostSocketId s)); [by left|].
    simpl. rewrite lookup_insert. case_decide; [|by left].
    intros [= <-]. by right.
  - simpl. unfold after. rewrite fire_cases.
    destruct (timers s !! t') as [tm'|] eqn:Ht; [|by left].
    case_bool_decide; [|by left]. simpl.
    rewrite lookup_delete. case_decide; [done|]. by left.
Qed.

(** A pending request was pending before the event, or has just been queued
    under an identifier drawn by [uuidv4]. *)
Lemma step_requests e s k q :
  wf s → (k, q) ∈ pendingRequests (after (step e) s) →
  (k, q) ∈ pendingRequests s ∨ ∃ r, k = uuidv4 r.
Proof.
  intros Hwf.
  assert (Hrem : (∀ c r, e ≠ Socket c (RequestHost r)) → (∀ t, e ≠ TimerFire t) →
    (k, q) ∈ pendingRequests (after (step e) s) →
    (k, q) ∈ pendingRequests s ∨ ∃ r, k = uuidv4 r).
  { intros Hreq Hfire.
    destruct (step_removal e s (wf_keys s Hwf) Hreq Hfire) as (-> & _ & _).
    rewrite list_elem_of_filter. intros [_ Hin]. by left. }
  destruct e as [c m|req r|t'|dt]; [destruct m| | |]; try (by apply Hrem).
  - simpl. unfold after. rewrite request_host_cases.
    destruct (negb (truthy (hostSocketId s))); [by left|].
    destruct (strict_eq c (hostSocketId s)); [by left|].
    simpl. intros Hin.
    apply own_set_elem in Hin as [[-> _]|[Hin _]]; [eauto|by left|].
    apply (wf_keys s Hwf).
  - simpl. unfold after. rewrite fire_cases.
    destruct (timers s !! t') as [tm'|] eqn:Ht; [|by left].
    case_bool_decide; [|by left]. simpl.
    intros [Hin _]%own_delete_elem. by left.
Qed.

Lemma deadlines_run es s :
  wf s →
  (∀ t tm, timers s !! t = Some tm →
           delay tm = 30000%N ∧ (due tm ≤ clock s + 30000)%N) →
  (∀ k q, (k, q) ∈ pendingRequests s → ∃ r, k = uuidv4 r) →
  (∀ t tm, timers (after (run es) s) !! t = Some tm →
           delay tm = 30000%N ∧ (due tm ≤ clock (after (run es) s) + 30000)%N)
  ∧ (∀ k q, (k, q) ∈ pendingRequests (after (run es) s) → ∃ r, k = uuidv4 r).
Proof.
  revert s. induction es as [|e es IH]; intros s Hwf Htm Hkeys; [done|].
  rewrite after_run_cons. apply IH; [by apply wf_step| |].
  - intros t tm Ht.
    assert (Hclock : (clock s ≤ clock (after (step e) s))%N).
    { rewrite step_clock by done. destruct e; lia. }
    destruct (step_timers e s t tm Hwf Ht) as [Hold|[Hd Hdue]].
    + destruct (Htm t tm Hold). split; [done|lia].
    + split; [done|lia].
  - intros k q Hin.
    destruct (step_requests e s k q Hwf Hin) as [Hold|Hnew]; eauto.
Qed.

(** X5. In every state the server reaches, the pending requests have
    distinct identifiers, none of which names a member of
    [Object.prototype], and each request holds the handle of an armed timer
    of thirty seconds that is due within thirty seconds and whose callback
    closes over that request's requester and identifier. *)
Theorem reachable_requests_are_armed (es : list event) :
  NoDup (pendingRequests (after (run es) initial)).*1
  ∧ Forall (λ p, inherited p.1 = false
                 ∧ ∃ tm, timers (after (run es) initial) !! timeout p.2 = Some tm
                         ∧ timer_socket tm = requester p.2
                         ∧ timer_request tm = p.1
                         ∧ delay tm = 30000%N
                         ∧ (due tm ≤ clock (after (run es) initial) + 30000)%N)
           (pendingRequests (after (run es) initial)).
Proof.
  pose proof (wf_reachable es) as Hwf.
  destruct (deadlines_run es initial wf_initial) as [Htm Hkeys].
  { intros t tm. simpl. by rewrite lookup_empty. }
  { intros k q Hin. by apply elem_of_nil in Hin. }
  split; [apply (wf_keys _ Hwf)|].
  apply Forall_forall. intros [k q] Hin. simpl. split.
  - destruct (Hkeys k q Hin) as [r ->]. apply uuidv4_not_inherited.
  - destruct (wf_armed _ Hwf k q Hin) as (tm & Ht & Hs & Hr).
    destruct (Htm _ _ Ht). by exists tm.
Qed.

(** ** Timers without a request *)

Lemma owned_step e s :
  wf s →
  map_Forall (λ t tm, own_get (timer_request tm) (pendingRequests s)
                      = Some (Request t (timer_socket tm))) (timers s) →
  fresh e s = true →
  map_Forall (λ t tm, own_get (timer_request tm) (pendingRequests (after (step e) s))
                      = Some (Request t (timer_socket tm)))
             (timers (after (step e) s)).
Proof.
  intros Hwf Howned Hfresh.
  assert (Hrem : (∀ c r, e ≠ Socket c (RequestHost r)) → (∀ t, e ≠ TimerFire t) →
    map_Forall (λ t tm, own_get (timer_request tm) (pendingRequests (after (step e) s))
                        = Some (Request t (timer_socket tm)))
               (timers (after (step e) s))).
  { intros Hreq Hfire.
    destruct (step_removal e s (wf_keys s Hwf) Hreq Hfire) as (-> & -> & _).
    intros t tm. rewrite lookup_clear_timers. case_decide as Hcleared; [done|].
    intros Ht. pose proof (Howned t tm Ht) as Hget. simpl in Hget.
    apply own_get_elem.
    - eapply sublist_NoDup; [apply (wf_keys s Hwf)|].
      apply fmap_sublist, sublist_filter.
    - apply own_get_Some_in in Hget. apply list_elem_of_filter. split; [|done].
      destruct (removes e (timer_request tm, Request t (timer_socket tm))) eqn:Hrm;
        [|done].
      destruct Hcleared. apply list_elem_of_fmap.
      exists (timer_request tm, Request t (timer_socket tm)). split; [done|].
      by apply list_elem_of_filter. }
  destruct e as [c m|req r|t'|dt]; [destruct m| | |]; try (by apply Hrem).
  - simpl in *. unfold after. rewrite request_host_cases.
    destruct (negb (truthy (hostSocketId s))); [done|].
    destruct (strict_eq c (hostSocketId s)); [done|].
    apply bool_decide_eq_true in Hfresh. simpl.
    intros t tm. rewrite lookup_insert. case_decide as Ht.
    + intros [= <-]. subst t. simpl. rewrite own_get_own_set.
      by rewrite bool_decide_eq_true_2.
    + intros Hold. pose proof (Howned t tm Hold) as Hget. simpl in Hget.
      rewrite own_get_own_set. rewrite bool_decide_eq_false_2; [done|].
      intros Heq. rewrite Heq in Hget. congruence.
  - simpl. unfold after. rewrite fire_cases.
    destruct (timers s !! t') as [tm'|] eqn:Ht'; [|done].
    case_bool_decide; [|done]. simpl.
    intros t tm. rewrite lookup_delete. case_decide as Ht; [done|].
    intros Hold. pose proof (Howned t tm Hold) as Hget.
    pose proof (Howned t' tm' Ht') as Hget'. simpl in Hget, Hget'.
    rewrite own_get_delete_ne; [done|].
    intros Heq. rewrite Heq in Hget. congruence.
Qed.

Lemma owned_run es s :
  wf s →
  map_Forall (λ t tm, own_get (timer_request tm) (pendingRequests s)
                      = Some (Request t (timer_socket tm))) (timers s) →
  fresh_run es s = true →
  map_Forall (λ t tm, own_get (timer_request tm) (pendingRequests (after (run es) s))
                      = Some (Request t (timer_socket tm)))
             (timers (after (run es) s)).
Proof.
  revert s. induction es as [|e es IH]; intros s Hwf Howned Hfresh; [done|].
  simpl in Hfresh. apply andb_true_iff in Hfresh as [He Hes].
  rewrite after_run_cons. apply IH; [by apply wf_step| |done].
  by apply owned_step.
Qed.

(** X6. As long as [uuidv4] never draws an identifier that is pending at
    that moment, the server leaves no timer behind: in every state it
    reaches, each armed timer belongs to the pending request that is stored
    under the identifier its callback closes over, with this timer's handle
    and this requester. *)
Theorem no_timer_without_request (es : list event) :
  fresh_run es initial = true →
  map_Forall (λ t tm,
      own_get (timer_request tm) (pendingRequests (after (run es) initial))
      = Some (Request t (timer_socket tm)))
    (timers (after (run es) initial)).
Proof.
  intros Hfresh. apply owned_run; [apply wf_initial| |done].
  apply map_Forall_empty.
Qed.

(** Two requests, one cancelled, the other still waiting for its timer. *)
Lemma no_timer_without_request_witness :
  let es := [Socket "A" RegisterHost; Socket "B" (RequestHost 5);
             Socket "C" (RequestHost 6); Socket "B" CancelHostRequest] in
  timers (after (run es) initial) !! 1
  = Some (Timer 30000 30000 "C" (uuidv4 6))
  ∧ timers (after (run es) initial) !! 0 = None
  ∧ own_get (uuidv4 6) (pendingRequests (after (run es) initial))
    = Some (Request 1 "C").
Proof.
  intros es.
  assert (Harmed : timers (after (run es) initial) !! 1
                   = Some (Timer 30000 30000 "C" (uuidv4 6))) by reflexivity.
  split_and!; [exact Harmed|reflexivity|].
  apply (no_timer_without_request es eq_refl 1 _ Harmed).
Defined.

(** ** The upload buffers and the rest of the state *)

Lemma for_keys_preserves (P : state → Prop) keys body s :
  (∀ k r s, P s → P (after (body k r) s)) →
  P s → P (after (for_keys keys body) s).
Proof.
  intros Hbody. revert s. induction keys as [|k keys IH]; intros s HP; [done|].
  cbn [for_keys]. rewrite !after_bind. apply IH.
  unfold gets at 1 2, result, after at 2; simpl.
  destruct (own_get k (pendingRequests s)); [by apply Hbody|done].
Qed.

Lemma for_in_preserves (P : state → Prop) body s :
  (∀ k r s, P s → P (after (body k r) s)) →
  P s → P (after (for_in_pendingRequests body) s).
Proof.
  intros Hbody HP. unfold after. rewrite for_in_pendingRequests_keys.
  by apply (for_keys_preserves P).
Qed.

(** Who writes to the buffers: nobody, an upload with the role host, or a
    flush; the writers leave the rest of the state alone. *)
Lemma step_buffers e s :
  match buffer_key e with
  | None => hostUploadBuffers (after (step e) s) = hostUploadBuffers s
  | Some c =>
      (after (step e) s = s
       ∨ (∃ req r, e = Upload req r ∧ host_upload_for c req ∧ c ≠ ""
                   ∧ after (step e) s = push_part c (upload_entry req r) s)
       ∨ (e = Socket c ProductUploadComplete
          ∧ after (step e) s
            = set_hostUploadBuffers (<[c := []]> (hostUploadBuffers s)) s))
  end.
Proof.
  destruct e as [c m|req r|t|dt]; [destruct m| | |]; simpl;
    try (handler_cases; done).
  - unfold cancel_host_request.
    apply (for_in_preserves (λ s', hostUploadBuffers s' = hostUploadBuffers s));
      [|done].
    intros k r s' Hs'. handler_cases; done.
  - unfold product_upload_complete, after, mbind, handler_bind, gets, when. simpl.
    destruct (has_parts _); simpl; [right; right|left]; done.
  - unfold disconnect. rewrite !after_bind.
    apply (for_in_preserves (λ s', hostUploadBuffers s' = hostUploadBuffers s)).
    + intros k r s' Hs'. handler_cases; done.
    + handler_cases; done.
  - destruct (x_socket_id req) as [c|] eqn:Hid.
    + unfold after, mbind, handler_bind, upload. rewrite Hid.
      destruct (file req) as [n|] eqn:Hfile; simpl; [|by left].
      destruct (bool_decide (uploaderRole req = "host")) eqn:Hrole; simpl;
        [|by left].
      destruct (bool_decide (c = "")) eqn:Hc; simpl; [by left|].
      unfold mbind, handler_bind, gets. simpl.
      apply bool_decide_eq_true in Hrole. apply bool_decide_eq_false in Hc.
      assert (Hreq : host_upload_for c req).
      { split; [by rewrite Hfile|]. split; [done|].
        unfold uploaderRole in Hrole.
        destruct (x_uploader_role req) as [role|]; simpl in *; [|done].
        destruct (bool_decide (role = "")); simpl in *; congruence. }
      destruct (get_property (hostUploadBuffers s !! c) c); simpl;
        [right; left|by left|right; left];
        exists req, r; split_and!; try done;
        unfold upload_entry; by rewrite Hfile, Hid.
    + unfold after, mbind, handler_bind, upload. rewrite Hid.
      by destruct (file req).
Qed.

(** X7. Only [POST /upload] and product-upload-complete write to the upload
    buffers, each only under the socket id it names, and neither touches the
    host, the pending requests, the timers or the clock. Every other event,
    a disconnect of the uploader included, leaves every buffer as it is. *)
Theorem buffers_and_roles_are_separate (e : event) (s : state) :
  match buffer_key e with
  | None => hostUploadBuffers (after (step e) s) = hostUploadBuffers s
  | Some c =>
      (∀ c', c' ≠ c →
         hostUploadBuffers (after (step e) s) !! c' = hostUploadBuffers s !! c')
      ∧ hostSocketId (after (step e) s) = hostSocketId s
      ∧ pendingRequests (after (step e) s) = pendingRequests s
      ∧ timers (after (step e) s) = timers s
      ∧ nextTimer (after (step e) s) = nextTimer s
      ∧ clock (after (step e) s) = clock s
  end.
Proof.
  pose proof (step_buffers e s) as Hstep.
  destruct (buffer_key e) as [c|]; [|done].
  destruct Hstep as [->|[(req & r & _ & _ & _ & ->)|[_ ->]]]; [done| |].
  - split_and!; try done. intros c' Hne. simpl. by rewrite lookup_insert_ne.
  - split_and!; try done. intros c' Hne. simpl. by rewrite lookup_insert_ne.
Qed.

Lemma buffered_parts_step e s :
  map_Forall (λ c parts, Forall (λ p,
      sender p = c ∧ (∃ r, id p = uuidv4 r)
      ∧ ∃ base, url p = base +:+ "/uploads/" +:+ name p) parts)
    (hostUploadBuffers s) →
  map_Forall (λ c parts, Forall (λ p,
      sender p = c ∧ (∃ r, id p = uuidv4 r)
      ∧ ∃ base, url p = base +:+ "/uploads/" +:+ name p) parts)
    (hostUploadBuffers (after (step e) s)).
Proof.
  intros Hinv. pose proof (step_buffers e s) as Hstep.
  destruct (buffer_key e) as [c|]; [|by rewrite Hstep].
  destruct Hstep as [->|[(req & r & _ & (Hfile & Hid & _) & _ & ->)|[_ ->]]];
    [done| |].
  - simpl. apply map_Forall_insert_2; [|done].
    apply Forall_app. split.
    + destruct (hostUploadBuffers s !! c) as [parts|] eqn:Hc; simpl; [|constructor].
      by apply (Hinv c parts).
    + constructor; [|constructor]. unfold upload_entry. rewrite Hid. simpl.
      split_and!; [done|eauto|]. by exists (baseUrl req).
  - simpl. apply map_Forall_insert_2; [constructor|done].
Qed.

(** X8. In every state the server reaches, each part in the buffer stored
    under a socket id names that id as its sender, carries an identifier
    drawn by [uuidv4], and has a url that ends in [/uploads/] followed by
    the part's name: so the parts of a product all name the sender the
    product names. *)
Theorem buffered_parts_name_their_sender (es : list event) :
  map_Forall (λ c parts, Forall (λ p,
      sender p = c ∧ (∃ r, id p = uuidv4 r)
      ∧ ∃ base, url p = base +:+ "/uploads/" +:+ name p) parts)
    (hostUploadBuffers (after (run es) initial)).
Proof.
  assert (Hrun : ∀ s,
    map_Forall (λ c parts, Forall (λ p,
        sender p = c ∧ (∃ r, id p = uuidv4 r)
        ∧ ∃ base, url p = base +:+ "/uploads/" +:+ name p) parts)
      (hostUploadBuffers s) →
    map_Forall (λ c parts, Forall (λ p,
        sender p = c ∧ (∃ r, id p = uuidv4 r)
        ∧ ∃ base, url p = base +:+ "/uploads/" +:+ name p) parts)
      (hostUploadBuffers (after (run es) s))).
  { induction es as [|e es IH]; intros s Hinv; [done|].
    rewrite after_run_cons. by apply IH, buffered_parts_step. }
  apply Hrun. simpl. apply map_Forall_empty.
Qed.

(** ** Uploads that are not buffered *)

(** X9. Unless an upload carries a file, the role header [host] and a
    non-empty socket id, it changes nothing and emits nothing; the uploader
    is answered 400 without a file, and otherwise with the url and the name
    of the stored file. *)
Theorem upload_without_buffering (req : upload_request) (r : N) (s : state) :
  (∀ c, host_upload_for c req → c = "") →
  upload req r s
  = (match file req with
     | None => Json 400 (VObj [("error", VStr "No file uploaded")])
     | Some originalname =>
         Json 200 (VObj [("url", VStr (fileUrl req originalname));
                         ("name", VStr originalname)])
     end, s, []).
Proof.
  intros Hnot. unfold upload.
  destruct (file req) as [n|] eqn:Hfile; [|done].
  destruct (x_socket_id req) as [c|] eqn:Hid; [|done].
  destruct (bool_decide (uploaderRole req = "host")) eqn:Hrole; [|done].
  destruct (bool_decide (c = "")) eqn:Hc; simpl; [by rewrite Hc|].
  apply bool_decide_eq_true in Hrole. apply bool_decide_eq_false in Hc.
  destruct Hc. apply Hnot. split; [by rewrite Hfile|]. split; [done|].
  unfold uploaderRole in Hrole.
  destruct (x_uploader_role req) as [role|]; simpl in *; [|done].
  destruct (bool_decide (role = "")); simpl in *; congruence.
Qed.

(** A viewer's upload while socket A is host. *)
Lemma upload_without_buffering_witness :
  let s := after (step (Socket "A" RegisterHost)) initial in
  upload (example_upload "a.glb" "B" "viewer") 1 s
  = (Json 200 (VObj [("url", VStr "http://viewer.example:3000/uploads/a.glb");
                     ("name", VStr "a.glb")]), s, []).
Proof.
  intros s. apply (upload_without_buffering (example_upload "a.glb" "B" "viewer") 1 s).
  intros c (_ & _ & Hrole). discriminate Hrole.
Defined.

(** X10. An upload with a file and the role header [host] whose socket id
    names a member of [Object.prototype] (and no buffer of that name exists)
    finds that member instead of an array: the handler throws, the state
    stays as it was and nothing is emitted, although multer has already
    stored the file. *)
Theorem upload_for_inherited_id_throws (c : string) (req : upload_request)
    (r : N) (s : state) (dir : gset string) :
  host_upload_for c req → inherited c = true →
  hostUploadBuffers s !! c = None →
  (∃ n, file req = Some n ∧ n ∈ store req dir)
  ∧ upload req r s
    = (Thrown "TypeError: hostUploadBuffers[uploaderId].push is not a function",
       s, []).
Proof.
  intros ([n Hfile] & Hid & Hrole) Hinh Hnone. split.
  - exists n. split; [done|]. unfold store. rewrite Hfile.
    by apply elem_of_union_l, elem_of_singleton_2.
  - assert (Hc : c ≠ "") by (intros ->; discriminate Hinh).
    unfold upload, uploaderRole. rewrite Hfile, Hid, Hrole. simpl.
    rewrite (bool_decide_eq_false_2 (c = "")) by done. simpl.
    unfold mbind, handler_bind, gets, get_property. by rewrite Hnone, Hinh.
Qed.

Lemma upload_for_inherited_id_throws_witness :
  (∃ n, file (example_upload "a.glb" "constructor" "host") = Some n
        ∧ n ∈ store (example_upload "a.glb" "constructor" "host") ∅)
  ∧ upload (example_upload "a.glb" "constructor" "host") 1 initial
    = (Thrown "TypeError: hostUploadBuffers[uploaderId].push is not a function",
       initial, []).
Proof.
  apply (upload_for_inherited_id_throws "constructor"
           (example_upload "a.glb" "constructor" "host") 1 initial ∅).
  - repeat split; simpl; eauto.
  - reflexivity.
  - reflexivity.
Defined.

(** ** Stale and inherited request identifiers, at an input *)

Lemma stale_reference_ignored_witness :
  release_host "00000000-0000-4000-8000-000000000000"
    (after (run [Socket "A" RegisterHost; Socket "B" (RequestHost 5)]) initial)
  = ((), after (run [Socket "A" RegisterHost; Socket "B" (RequestHost 5)]) initial, [])
  ∧ deny_host "00000000-0000-4000-8000-000000000000"
      (after (run [Socket "A" RegisterHost; Socket "B" (RequestHost 5)]) initial)
    = ((), after (run [Socket "A" RegisterHost; Socket "B" (RequestHost 5)]) initial, []).
Proof.
  apply (stale_reference_ignored "00000000-0000-4000-8000-000000000000"
           (after (run [Socket "A" RegisterHost; Socket "B" (RequestHost 5)]) initial));
    reflexivity.
Defined.

Lemma deny_host_inherited_key_witness :
  let s := after (run [Socket "A" RegisterHost; Socket "B" (RequestHost 5)]) initial in
  after (deny_host "valueOf") s = s
  ∧ emitted (deny_host "valueOf") s
    = [Emit (ToRoom VUndefined) "transfer-denied" (VObj [("requestId", VStr "valueOf")])]
  ∧ ∀ c, received ["A"; "B"] c (emitted (deny_host "valueOf") s) = [].
Proof.
  intros s. apply (deny_host_inherited_key "valueOf" s ["A"; "B"]); reflexivity.
Defined.

(** ** Deleting all uploads *)

Lemma unlink_callbacks_late total ok completed dir t :
  total ≤ deleteCount t + errorCount t →
  (unlink_callbacks total ok completed dir t).2 = [].
Proof.
  revert dir t. induction completed as [|f completed IH]; intros dir t Hlate; [done|].
  cbn [unlink_callbacks]. unfold unlink_done.
  set (t' := if ok f then Tally (S (deleteCount t)) (errorCount t)
             else Tally (deleteCount t) (S (errorCount t))).
  assert (Ht' : deleteCount t' + errorCount t' = S (deleteCount t + errorCount t)).
  { unfold t'. destruct (ok f); simpl; lia. }
  rewrite bool_decide_eq_false_2 by lia.
  specialize (IH (if ok f then dir ∖ {[f]} else dir) t').
  destruct (unlink_callbacks total ok completed _ t') as [[dir'' t''] out'].
  simpl in *. apply IH. lia.
Qed.

Lemma unlink_callbacks_once total ok completed dir t :
  length (unlink_callbacks total ok completed dir t).2 ≤ 1.
Proof.
  revert dir t. induction completed as [|f completed IH]; intros dir t;
    [simpl; lia|].
  cbn [unlink_callbacks]. unfold unlink_done.
  set (t' := if ok f then Tally (S (deleteCount t)) (errorCount t)
             else Tally (deleteCount t) (S (errorCount t))).
  pose proof (unlink_callbacks_late total ok completed
                (if ok f then dir ∖ {[f]} else dir) t') as Hlate.
  specialize (IH (if ok f then dir ∖ {[f]} else dir) t').
  destruct (unlink_callbacks total ok completed _ t') as [[dir'' t''] out'].
  simpl in *. case_bool_decide as Hsum; simpl; [|done].
  rewrite Hlate by lia. simpl. lia.
Qed.

Lemma unlink_callbacks_state total ok completed dir t :
  (unlink_callbacks total ok completed dir t).1
  = (dir ∖ list_to_set (filter (λ f, ok f = true) completed),
     Tally (deleteCount t + length (filter (λ f, ok f = true) completed))
           (errorCount t + length (filter (λ f, ok f = false) completed))).
Proof.
  revert dir t. induction completed as [|f completed IH]; intros dir t.
  { destruct t as [d e]. simpl. by rewrite !Nat.add_0_r, difference_empty_L. }
  cbn [unlink_callbacks]. unfold unlink_done.
  set (t' := if ok f then Tally (S (deleteCount t)) (errorCount t)
             else Tally (deleteCount t) (S (errorCount t))).
  specialize (IH (if ok f then dir ∖ {[f]} else dir) t').
  destruct (unlink_callbacks total ok completed _ t') as [[dir'' t''] out'].
  simpl in *. rewrite IH, !filter_cons. unfold t'.
  destruct (ok f); simpl; rewrite ?Nat.add_succ_r; [|done].
  by rewrite difference_difference_l_L.
Qed.

Lemma unlink_callbacks_early total ok completed dir t :
  deleteCount t + errorCount t + length completed < total →
  (unlink_callbacks total ok completed dir t).2 = [].
Proof.
  revert dir t. induction completed as [|f completed IH]; intros dir t Hlt; [done|].
  cbn [unlink_callbacks]. unfold unlink_done.
  set (t' := if ok f then Tally (S (deleteCount t)) (errorCount t)
             else Tally (deleteCount t) (S (errorCount t))).
  assert (Ht' : deleteCount t' + errorCount t' = S (deleteCount t + errorCount t)).
  { unfold t'. destruct (ok f); simpl; lia. }
  simpl in Hlt. rewrite bool_decide_eq_false_2 by lia.
  specialize (IH (if ok f then dir ∖ {[f]} else dir) t').
  destruct (unlink_callbacks total ok completed _ t') as [[dir'' t''] out'].
  simpl in *. apply IH. lia.
Qed.

Lemma unlink_callbacks_last total ok completed dir t :
  completed ≠ [] →
  deleteCount t + errorCount t + length completed = total →
  (unlink_callbacks total ok completed dir t).2
  = [Json 200 (deleted_message (unlink_callbacks total ok completed dir t).1.2)].
Proof.
  revert dir t. induction completed as [|f completed IH]; intros dir t Hne Hsum;
    [done|].
  cbn [unlink_callbacks]. unfold unlink_done.
  set (t' := if ok f then Tally (S (deleteCount t)) (errorCount t)
             else Tally (deleteCount t) (S (errorCount t))).
  assert (Ht' : deleteCount t' + errorCount t' = S (deleteCount t + errorCount t)).
  { unfold t'. destruct (ok f); simpl; lia. }
  simpl in Hsum. destruct completed as [|f' completed].
  - simpl. by rewrite bool_decide_eq_true_2 by (simpl in *; lia).
  - rewrite bool_decide_eq_false_2 by (simpl in *; lia).
    specialize (IH (if ok f then dir ∖ {[f]} else dir) t').
    destruct (unlink_callbacks total ok (f' :: completed) _ t')
      as [[dir'' t''] out'].
    simpl in *. apply IH; [done|lia].
Qed.

Lemma all_models_or_fewer (files : list string) :
  (forallb is_model_file files = true
   ∧ filter (λ f, is_model_file f = true) files = files)
  ∨ (forallb is_model_file files = false
     ∧ length (filter (λ f, is_model_file f = true) files) < length files).
Proof.
  induction files as [|f files IH]; [by left|].
  rewrite filter_cons. cbn [forallb].
  destruct (is_model_file f) eqn:Hf; simpl.
  - destruct IH as [[-> ->]|[-> Hlt]]; [by left|right].
    split; [done|]. simpl. lia.
  - right. split; [done|].
    pose proof (length_filter (λ f, is_model_file f = true) files). simpl. lia.
Qed.

(** X13. [DELETE /delete-all-uploads] on a directory that is not empty,
    once every unlink it issued has completed (in whatever order): the
    files whose unlink succeeded are gone, and the request is answered, with
    the two counts, exactly when every file of the directory is a [.glb] or
    [.gltf] file. If any other file is present no answer is ever sent. *)
Theorem delete_all_answers_only_for_models (files : list string)
    (ok : string → bool) (completed : list string) (dir : gset string) :
  files ≠ [] →
  completed ≡ₚ filter (λ f, is_model_file f = true) files →
  delete_all_uploads (Some files) ok completed dir
  = (dir ∖ list_to_set (filter (λ f, ok f = true) completed),
     if forallb is_model_file files
     then [Json 200 (deleted_message
             (Tally (length (filter (λ f, ok f = true) completed))
                    (length (filter (λ f, ok f = false) completed))))]
     else []).
Proof.
  intros Hfiles Hperm. unfold delete_all_uploads.
  rewrite bool_decide_eq_false_2 by (by destruct files).
  pose proof (Permutation_length Hperm) as Hlen.
  pose proof (unlink_callbacks_state (length files) ok completed dir (Tally 0 0))
    as Hstate.
  pose proof (unlink_callbacks_early (length files) ok completed dir (Tally 0 0))
    as Hearly.
  pose proof (unlink_callbacks_last (length files) ok completed dir (Tally 0 0))
    as Hlast.
  destruct (unlink_callbacks _ ok completed dir _) as [[dir' t'] out].
  simpl in *. injection Hstate as -> ->. f_equal.
  destruct (all_models_or_fewer files) as [[-> Hall]|[-> Hfew]].
  - rewrite Hall in Hlen. apply Hlast; [|done].
    intros ->. by destruct files.
  - apply Hearly. lia.
Qed.

(** Three files of which one is a text file: both models are deleted and
    nobody is answered; with the two models alone the answer comes. *)
Lemma delete_all_answers_only_for_models_witness :
  delete_all_uploads (Some ["a.glb"; "notes.txt"; "b.gltf"]) (λ _, true)
    ["b.gltf"; "a.glb"] {["a.glb"; "notes.txt"; "b.gltf"]}
  = ({["notes.txt"]}, [])
  ∧ delete_all_uploads (Some ["a.glb"; "b.gltf"]) (λ _, true)
      ["b.gltf"; "a.glb"] {["a.glb"; "b.gltf"]}
    = (∅, [Json 200 (VObj [("message",
                            VStr "Deleted 2 files, failed to delete 0 files")])]).
Proof.
  split.
  - rewrite (delete_all_answers_only_for_models
               ["a.glb"; "notes.txt"; "b.gltf"] (λ _, true) ["b.gltf"; "a.glb"]).
    + by vm_compute.
    + discriminate.
    + vm_compute filter. apply Permutation_swap.
  - rewrite (delete_all_answers_only_for_models
               ["a.glb"; "b.gltf"] (λ _, true) ["b.gltf"; "a.glb"]).
    + by vm_compute.
    + discriminate.
    + vm_compute filter. apply Permutation_swap.
Defined.

(** X14. [DELETE /delete-all-uploads] never answers a request twice,
    whatever the directory holds and however many unlinks have completed;
    and on a directory that is not empty it sends nothing while fewer
    callbacks have run than the directory has files. *)
Theorem delete_all_answers_at_most_once (readdir : option (list string))
    (ok : string → bool) (completed : list string) (dir : gset string) :
  length (delete_all_uploads readdir ok completed dir).2 ≤ 1
  ∧ (∀ files, readdir = Some files → files ≠ [] →
       length completed < length files →
       (delete_all_uploads readdir ok completed dir).2 = []).
Proof.
  split.
  - unfold delete_all_uploads. destruct readdir as [files|]; [|simpl; lia].
    case_bool_decide; [simpl; lia|].
    pose proof (unlink_callbacks_once (length files) ok completed dir (Tally 0 0)).
    by destruct (unlink_callbacks _ _ _ _ _) as [[? ?] ?].
  - intros files -> Hfiles Hlt. unfold delete_all_uploads.
    rewrite bool_decide_eq_false_2 by (by destruct files).
    pose proof (unlink_callbacks_early (length files) ok completed dir (Tally 0 0))
      as Hearly.
    destruct (unlink_callbacks _ ok completed dir _) as [[dir' t'] out].
    simpl in *. apply Hearly. lia.
Qed.

(** ** Listing what is stored *)

Lemma list_uploads_entries (req : upload_request) (files : list string) (e : value) :
  e ∈ ((λ file, VObj [("name", VStr file); ("url", VStr (fileUrl req file))])
       <$> filter (λ file, is_model_file file = true) files)
  ↔ ∃ f, f ∈ files ∧ is_model_file f = true
         ∧ e = VObj [("name", VStr f); ("url", VStr (fileUrl req f))].
Proof.
  rewrite list_elem_of_fmap. split.
  - intros (f & -> & [Hm Hin]%list_elem_of_filter). eauto.
  - intros (f & Hin & Hm & ->). exists f. split; [done|].
    by apply list_elem_of_filter.
Qed.

Lemma list_ascii_of_append (a b : string) :
  list_ascii_of_string (a +:+ b) = list_ascii_of_string a ++ list_ascii_of_string b.
Proof.
  induction a as [|x a IH]; [done|].
  change (String x a +:+ b) with (String x (a +:+ b)).
  cbn [list_ascii_of_string]. by rewrite IH.
Qed.

Lemma append_inj_l (a b suffix : string) : a +:+ suffix = b +:+ suffix → a = b.
Proof.
  intros Heq. apply (f_equal list_ascii_of_string) in Heq.
  rewrite !list_ascii_of_append in Heq. apply app_inv_tail in Heq.
  apply (f_equal string_of_list_ascii) in Heq.
  by rewrite !string_of_list_ascii_of_string in Heq.
Qed.

(** Two requests give a file the same url exactly when they have the same
    base url. *)
Lemma fileUrl_eq (req get : upload_request) (n : string) :
  fileUrl get n = fileUrl req n ↔ baseUrl get = baseUrl req.
Proof.
  unfold fileUrl. split; [|by intros ->].
  apply append_inj_l.
Qed.

(** X15. Whatever the role and socket-id headers of an upload say, multer
    has stored its file under the original name. A later
    [GET /list-uploads] reports that name exactly when it ends in [.glb] or
    [.gltf], and every entry it reports is a stored model file; the urls it
    reports are built from the base url of the listing request. An upload
    that is answered is answered with the url built from its own base url,
    so the listed url of the file is the url the upload was answered with
    exactly when the two requests have the same base url: [PUBLIC_URL] is
    set, or they agree on protocol and [Host] header. *)
Theorem stored_file_is_listed (req get : upload_request) (n : string) (r : N)
    (s : state) (dir : gset string) (files : list string) :
  file req = Some n →
  (∀ f, f ∈ files ↔ f ∈ store req dir) →
  ∃ entries,
    list_uploads get (Some files) = Json 200 (VArr entries)
    ∧ (VObj [("name", VStr n); ("url", VStr (fileUrl get n))] ∈ entries
       ↔ is_model_file n = true)
    ∧ (∀ e, e ∈ entries →
         ∃ f, f ∈ store req dir ∧ is_model_file f = true
              ∧ e = VObj [("name", VStr f); ("url", VStr (fileUrl get f))])
    ∧ (∀ status body, result (upload req r) s = Json status body →
         status = 200
         ∧ body = VObj [("url", VStr (fileUrl req n)); ("name", VStr n)])
    ∧ (fileUrl get n = fileUrl req n ↔ baseUrl get = baseUrl req)
    ∧ (is_Some (public_url get) → public_url get ≠ Some "" →
         public_url req = public_url get → baseUrl get = baseUrl req)
    ∧ (protocol get = protocol req → host get = host req →
         public_url get = public_url req → baseUrl get = baseUrl req).
Proof.
  intros Hfile Hfiles. eexists. split; [reflexivity|]. split_and!.
  - rewrite list_uploads_entries. split.
    + intros (f & _ & Hm & [= ->]). done.
    + intros Hm. exists n. split_and!; [|done|done].
      apply Hfiles. unfold store. rewrite Hfile.
      by apply elem_of_union_l, elem_of_singleton_2.
  - intros e (f & Hin & Hm & ->)%list_uploads_entries.
    exists f. split_and!; [by apply Hfiles|done|done].
  - intros status body. unfold result, upload. rewrite Hfile.
    handler_cases; intros Heq; by simplify_eq.
  - apply fileUrl_eq.
  - intros [u Hu] Hne Heq. unfold baseUrl. rewrite Heq, Hu. simpl.
    rewrite bool_decide_eq_false_2; [done|]. congruence.
  - intros Hp Hh Hu. unfold baseUrl. by rewrite Hp, Hh, Hu.
Qed.

(** A viewer uploads a model into an empty directory. A listing asked for
    under the same [Host] header reports it with the url of the upload's
    answer; a listing asked for under another one does not. *)
Lemma stored_file_is_listed_witness :
  let req := example_upload "a.glb" "B" "viewer" in
  let get := UploadRequest None None "http" (Some "192.168.1.5:3000") None None in
  result (upload req 5) initial
  = Json 200 (VObj [("url", VStr "http://viewer.example:3000/uploads/a.glb");
                    ("name", VStr "a.glb")])
  ∧ (∃ entries,
       list_uploads req (Some ["a.glb"]) = Json 200 (VArr entries)
       ∧ VObj [("name", VStr "a.glb");
               ("url", VStr "http://viewer.example:3000/uploads/a.glb")] ∈ entries)
  ∧ (∃ entries,
       list_uploads get (Some ["a.glb"]) = Json 200 (VArr entries)
       ∧ VObj [("name", VStr "a.glb");
               ("url", VStr "http://192.168.1.5:3000/uploads/a.glb")] ∈ entries)
  ∧ baseUrl get ≠ baseUrl req.
Proof.
  intros req get.
  assert (Hdir : ∀ f : string, f ∈ ["a.glb"] ↔ f ∈ store req ∅).
  { intros f. unfold store, req, example_upload. cbn [file].
    rewrite list_elem_of_singleton, elem_of_union, elem_of_singleton, elem_of_empty.
    tauto. }
  destruct (stored_file_is_listed req req "a.glb" 5 initial ∅ ["a.glb"] eq_refl Hdir)
    as (same & Hsame & Hlisted & _).
  destruct (stored_file_is_listed req get "a.glb" 5 initial ∅ ["a.glb"] eq_refl Hdir)
    as (other & Hother & Hlisted' & _ & _ & Hurl & _).
  split_and!.
  - reflexivity.
  - exists same. split; [exact Hsame|]. by apply Hlisted.
  - exists other. split; [exact Hother|]. by apply Hlisted'.
  - intros Heq%Hurl. discriminate.
Defined.

Lemma delete_all_directory files ok completed dir :
  files ≠ [] →
  (delete_all_uploads (Some files) ok completed dir).1
  = dir ∖ list_to_set (filter (λ f, ok f = true) completed).
Proof.
  intros Hfiles. unfold delete_all_uploads.
  rewrite bool_decide_eq_false_2 by (by destruct files).
  pose proof (unlink_callbacks_state (length files) ok completed dir (Tally 0 0))
    as Hstate.
  destruct (unlink_callbacks _ ok completed dir _) as [[dir' t'] out].
  simpl in *. by injection Hstate as -> _.
Qed.

(** X16. After [DELETE /delete-all-uploads] on a listing of the directory,
    with every unlink completed and successful, [GET /list-uploads] reports
    nothing, while every file that is not a model file is still in the
    directory. *)
Theorem deleted_models_are_no_longer_listed (req : upload_request)
    (files completed files' : list string) (ok : string → bool)
    (dir : gset string) :
  (∀ f, f ∈ files ↔ f ∈ dir) →
  completed ≡ₚ filter (λ f, is_model_file f = true) files →
  (∀ f, ok f = true) →
  (∀ f, f ∈ files' ↔ f ∈ (delete_all_uploads (Some files) ok completed dir).1) →
  list_uploads req (Some files') = Json 200 (VArr [])
  ∧ (∀ f, f ∈ dir → is_model_file f = false → f ∈ files').
Proof.
  intros Hfiles Hperm Hok Hfiles'.
  assert (Hdir : ∀ f, f ∈ (delete_all_uploads (Some files) ok completed dir).1
                      ↔ f ∈ dir ∧ is_model_file f = false).
  { intros f. destruct files as [|f0 files0] eqn:Hf.
    - simpl. split; [|by intros [? _]].
      intros Hin. apply Hfiles in Hin. by apply elem_of_nil in Hin.
    - rewrite <- Hf in *. rewrite delete_all_directory by (by rewrite Hf).
      rewrite elem_of_difference, elem_of_list_to_set.
      rewrite filter_all by (apply Forall_forall; intros ??; apply Hok).
      rewrite Hperm, list_elem_of_filter, Hfiles.
      destruct (is_model_file f); split; intros [? ?]; split; try done.
      + destruct H0. by split.
      + intros [? _]. done. }
  split.
  - unfold list_uploads. rewrite filter_none; [done|].
    apply Forall_forall. intros f Hin%Hfiles'%Hdir. destruct Hin as [_ ->]. done.
  - intros f Hin Hm. apply Hfiles', Hdir. by split.
Qed.

Lemma deleted_models_are_no_longer_listed_witness :
  (delete_all_uploads (Some ["a.glb"; "notes.txt"]) (λ _, true) ["a.glb"]
     {["a.glb"; "notes.txt"]}).1 = {["notes.txt"]}
  ∧ list_uploads (example_upload "" "" "") (Some ["notes.txt"]) = Json 200 (VArr [])
  ∧ "notes.txt" ∈ ["notes.txt"].
Proof.
  assert (Hdir : (delete_all_uploads (Some ["a.glb"; "notes.txt"]) (λ _, true)
                    ["a.glb"] {["a.glb"; "notes.txt"]}).1 = {["notes.txt"]})
    by (by vm_compute).
  destruct (deleted_models_are_no_longer_listed (example_upload "" "" "")
              ["a.glb"; "notes.txt"] ["a.glb"] ["notes.txt"] (λ _, true)
              {["a.glb"; "notes.txt"]}) as [Hlist Hkept].
  - intros f. rewrite !elem_of_cons, elem_of_nil, elem_of_union, !elem_of_singleton.
    tauto.
  - by vm_compute.
  - done.
  - intros f. rewrite Hdir. by rewrite list_elem_of_singleton, elem_of_singleton.
  - split_and!; [exact Hdir|exact Hlist|].
    apply Hkept; [|reflexivity].
    by apply elem_of_union_r, elem_of_singleton_2.
Defined.

(** ** What the clients believe *)

Lemma host_changed_shape_step e s :
  Forall (λ em, em_event em = "host-changed" →
                ∃ v, em = Emit ToAll "host-changed" (host_changed v))
         (emitted (step e) s).
Proof.
  destruct e as [c m|req r|t|dt]; simpl.
  - destruct m; simpl;
      try (handler_cases; repeat constructor; simpl; by eauto).
    + unfold cancel_host_request, emitted.
      rewrite for_in_pendingRequests_keys.
      eapply Forall_impl;
        [apply (emitted_for_keys_event _ _ "host-request-cancelled")|].
      * intros k r s'. handler_cases; by repeat constructor.
      * simpl. intros em -> ?. discriminate.
    + unfold disconnect. rewrite emitted_bind, emitted_bind.
      rewrite !Forall_app. split_and!.
      * constructor.
      * handler_cases; repeat constructor; simpl; eauto.
      * unfold emitted at 1. rewrite for_in_pendingRequests_keys.
        eapply Forall_impl; [apply (emitted_for_keys_event _ _ "")|].
        -- intros k r s'. handler_cases; by repeat constructor.
        -- simpl. intros em -> ?. discriminate.
  - handler_cases; by repeat constructor.
  - handler_cases; repeat constructor; simpl; eauto.
  - constructor.
Qed.

Lemma host_changed_shape_run es s :
  Forall (λ em, em_event em = "host-changed" →
                ∃ v, em = Emit ToAll "host-changed" (host_changed v))
         (emitted (run es) s).
Proof.
  revert s. induction es as [|e es IH]; intros s; [constructor|].
  rewrite emitted_run_cons. apply Forall_app. split; [|apply IH].
  apply host_changed_shape_step.
Qed.

Lemma announce_other h e : em_event e ≠ "host-changed" → announce h e = h.
Proof.
  intros He. unfold announce. destruct (em_target e); try done.
  destruct (em_payload e) as [| | | | | |[|[field v] [|]]|]; try done.
  rewrite bool_decide_eq_false_2; [done|]. by intros [? _].
Qed.

Lemma client_receive_other c cl e :
  em_event e ≠ "host-changed" → isHost (client_receive c cl e) = isHost cl.
Proof.
  intros He. unfold client_receive. rewrite bool_decide_eq_false_2 by done.
  by case_bool_decide.
Qed.

(** A client that receives what is sent to it keeps its flag equal to the
    host test on the last identifier announced. *)
Lemma client_tracks (c : string) (conns : list string) (out : list emission) :
  c ∈ conns → c ≠ "" →
  Forall (λ em, em_event em = "host-changed" →
                ∃ v, em = Emit ToAll "host-changed" (host_changed v)) out →
  ∀ cl h, isHost cl = strict_eq c h →
    isHost (foldl (client_receive c) cl (received conns c out))
    = strict_eq c (announced h out).
Proof.
  intros Hc Hne Hout. induction Hout as [|e out He _ IH]; intros cl h Hcl; [done|].
  unfold received, announced in *. rewrite filter_cons. cbn [foldl].
  destruct (decide (em_event e = "host-changed")) as [Hev|Hev].
  - destruct (He Hev) as [v ->]. simpl.
    rewrite decide_True by done. cbn [foldl]. apply IH.
    unfold client_receive, host_changed_received, announce. simpl.
    destruct (truthy v) eqn:Hv; [done|].
    destruct (strict_eq c v) eqn:Heq; [|done].
    apply strict_eq_true in Heq. subst v. simpl in Hv.
    by rewrite bool_decide_eq_false_2 in Hv.
  - rewrite announce_other by done.
    destruct (decide (c ∈ recipients conns (em_target e))).
    + cbn [foldl]. apply IH. by rewrite client_receive_other.
    + by apply IH.
Qed.

(** X17. A client with a non-empty socket id that starts as a viewer, stays
    connected and handles the events sent to it in order has, after any run
    of the server, its flag [isHost] set exactly when the server's host
    identifier is its own id. *)
Theorem client_agrees_with_server (c : string) (conns : list string)
    (es : list event) (cl : client) :
  c ∈ conns → c ≠ "" → isHost cl = false →
  isHost (foldl (client_receive c) cl
            (received conns c (emitted (run es) initial)))
  = strict_eq c (hostSocketId (after (run es) initial)).
Proof.
  intros Hc Hne Hcl.
  rewrite <- (announced_run es initial wf_initial).
  apply client_tracks; [done|done|apply host_changed_shape_run|done].
Qed.

(** Client B watches A register, B ask, and the timer of B's request run. *)
Lemma client_agrees_with_server_witness :
  let es := [Socket "A" RegisterHost; Socket "B" (RequestHost 5);
             Elapse 30000; TimerFire 0] in
  hostSocketId (after (run es) initial) = VStr "B"
  ∧ isHost (foldl (client_receive "B") (Client false VNull true (Some 7))
              (received ["A"; "B"] "B" (emitted (run es) initial))) = true
  ∧ isHost (foldl (client_receive "A") (Client false VNull false None)
              (received ["A"; "B"] "A" (emitted (run es) initial))) = false.
Proof.
  intros es. split_and!; [reflexivity| |].
  - rewrite (client_agrees_with_server "B" ["A"; "B"] es); try done.
    apply list_elem_of_further, list_elem_of_here.
  - rewrite (client_agrees_with_server "A" ["A"; "B"] es); try done.
    apply list_elem_of_here.
Defined.
